(** * neko: the session registry and the WebRTC peer

    A shallow embedding of [internal/session/manager.go] and
    [internal/webrtc/peer.go].

    Go pointers to [SessionCtx] objects are locations in an object store, so
    that the session map, the host slot, the cursor map and the API session
    can alias the same object.  Calls into collaborators (the event emitter,
    the websocket and WebRTC peers of a session, [session.Send]) are recorded,
    in program order, in a list of effects.  The mutexes are not modelled:
    every operation is taken as one sequential step. *)

From stdpp Require Import gmap strings list fin_maps.
From Stdlib Require Import ZArith.

Open Scope string_scope.
Open Scope list_scope.

(** ** internal/types *)

Module Types.

(** Modelled from the spec: the sentinel errors of package [types]
    ([ErrSessionNotFound], [ErrSessionAlreadyExists],
    [ErrWebRTCConnectionNotFound]) are declared in files that are not at
    hand; they are the "NotFound", "AlreadyExists" and "ConnectionNotFound"
    of the error taxonomy.  [ErrorsNew] is [errors.New]; [ErrExternal] stands
    for an error handed back by a collaborator. *)
Inductive error :=
  | ErrSessionNotFound
  | ErrSessionAlreadyExists
  | ErrWebRTCConnectionNotFound
  | ErrorsNew (msg : string)
  | ErrExternal (msg : string).

#[global] Instance error_eq_dec : EqDecision error.
Proof. solve_decision. Defined.

(** Modelled from the spec: [types.MemberProfile] is declared in a file that
    is not at hand; the capability flags are those of the Profile of the data
    model, [Name] is set by [New]. *)
Record MemberProfile := {
  Name : string;
  IsAdmin : bool;
  CanLogin : bool;
  CanConnect : bool;
  CanWatch : bool;
  CanHost : bool;
  CanAccessClipboard : bool;
  CanSeeInactiveCursors : bool
}.

(** Modelled from the spec: [types.SessionState], the "derived state
    (IsConnected, IsWatching)". *)
Record SessionState := {
  IsConnected : bool;
  IsWatching : bool
}.

(** Modelled from the spec: [types.Cursor], a position sample. *)
Record Cursor := { X : Z; Y : Z }.

(** A pointer to a [SessionCtx]. *)
Abbreviation loc := nat (only parsing).

(** A [types.Session] interface value, as the pointer it holds: [None] is
    [nil], be it a nil interface or an interface around a nil pointer. *)
Definition Session := option loc.

(** An [interface{}] payload, kept in its serialised form. *)
Definition Payload := string.

End Types.

Import Types.

(** ** internal/session *)

Module SessionManager.

(** Modelled from the spec: [config.Session] is declared in a package that is
    not at hand; the fields are the ones the registry reads, the
    "configuration surface" of the spec. *)
Record Config := {
  APIToken : string;
  ImplicitHosting_ : bool;
  InactiveCursors_ : bool;
  CookieEnabled_ : bool;
  MercifulReconnect_ : bool
}.

(** Modelled from the spec: the [SessionCtx] struct and its methods [State],
    [ID], [Profile] are declared in a file of package [session] that is not
    at hand.  The fields [id], [token], [profile] are those of the composite
    literals in [New] and [Create]; the two nullable handles and the state
    derived from them follow the data model of the spec ("transport-connection
    handle", "peer-negotiation handle", "derived state computed from the two
    handles"). *)
Record SessionCtx := {
  session_id : string;
  session_token : string;
  session_profile : MemberProfile;
  websocketPeer : option nat;
  webrtcPeer : option nat
}.

Definition State (s : SessionCtx) : SessionState :=
  {| IsConnected := bool_decide (is_Some (websocketPeer s));
     IsWatching := bool_decide (is_Some (webrtcPeer s)) |}.

Definition ID (s : SessionCtx) : string := session_id s.
Definition Profile (s : SessionCtx) : MemberProfile := session_profile s.

(** The composite literal [&SessionCtx{id: .., token: .., profile: ..}]: the
    fields it does not name are zero. *)
Definition newSessionCtx (id token : string) (profile : MemberProfile) : SessionCtx :=
  {| session_id := id; session_token := token; session_profile := profile;
     websocketPeer := None; webrtcPeer := None |}.

Definition zeroProfile : MemberProfile :=
  {| Name := EmptyString; IsAdmin := false; CanLogin := false; CanConnect := false;
     CanWatch := false; CanHost := false; CanAccessClipboard := false;
     CanSeeInactiveCursors := false |}.

Definition zeroSessionCtx : SessionCtx := newSessionCtx EmptyString EmptyString zeroProfile.

(** [session.profile = profile] *)
Definition setProfile (profile : MemberProfile) (s : SessionCtx) : SessionCtx :=
  {| session_id := session_id s; session_token := session_token s;
     session_profile := profile;
     websocketPeer := websocketPeer s; webrtcPeer := webrtcPeer s |}.

(** What the registry does to its collaborators, in program order. *)
Inductive Effect :=
  | Emit (event : string) (payload : Session)
  | ProfileChanged (session : loc)
  | WebSocketPeerDestroy (session : loc) (reason : string)
  | WebRTCPeerDestroy (session : loc)
  | Send (session : loc) (event : string) (payload : Payload).

#[global] Instance Effect_eq_dec : EqDecision Effect.
Proof. solve_decision. Defined.

Record SessionManagerCtx := {
  config : Config;
  tokens : gmap string string;
  sessions : gmap string loc;
  host : Session;
  cursors : gmap Session (list Cursor);
  apiSession : option loc
}.

(** The registry together with the objects its pointers refer to and the
    effects performed so far. *)
Record World := {
  manager : SessionManagerCtx;
  objects : list SessionCtx;
  effects : list Effect
}.

(** [*session]: every location the registry holds was allocated by [New] or
    [Create] (lemma [reachable_valid]), so the default is not reached. *)
Definition deref (w : World) (session : loc) : SessionCtx :=
  default zeroSessionCtx (objects w !! session).

Definition setManager (m : SessionManagerCtx) (w : World) : World :=
  {| manager := m; objects := objects w; effects := effects w |}.

(** Assignments to the fields of [*manager]. *)
Definition setMaps (tokens_ : gmap string string) (sessions_ : gmap string loc)
    (w : World) : World :=
  let m := manager w in
  setManager
    {| config := config m; tokens := tokens_; sessions := sessions_;
       host := host m; cursors := cursors m; apiSession := apiSession m |} w.

Definition setHostSlot (host_ : Session) (w : World) : World :=
  let m := manager w in
  setManager
    {| config := config m; tokens := tokens m; sessions := sessions m;
       host := host_; cursors := cursors m; apiSession := apiSession m |} w.

Definition setCursors (cursors_ : gmap Session (list Cursor)) (w : World) : World :=
  let m := manager w in
  setManager
    {| config := config m; tokens := tokens m; sessions := sessions m;
       host := host m; cursors := cursors_; apiSession := apiSession m |} w.

Definition setApiSession (api : option loc) (w : World) : World :=
  let m := manager w in
  setManager
    {| config := config m; tokens := tokens m; sessions := sessions m;
       host := host m; cursors := cursors m; apiSession := api |} w.

Definition perform (e : Effect) (w : World) : World :=
  {| manager := manager w; objects := objects w; effects := effects w ++ [e] |}.

(** [&SessionCtx{..}]: a fresh object, at the next free location. *)
Definition alloc (s : SessionCtx) (w : World) : loc * World :=
  (length (objects w),
   {| manager := manager w; objects := objects w ++ [s]; effects := effects w |}).

(** A store through a session pointer. *)
Definition store (session : loc) (s : SessionCtx) (w : World) : World :=
  {| manager := manager w; objects := <[session := s]> (objects w);
     effects := effects w |}.

Definition apiProfile : MemberProfile :=
  {| Name := "API Session"; IsAdmin := true; CanLogin := true;
     CanConnect := false; CanWatch := true; CanHost := true;
     CanAccessClipboard := true; CanSeeInactiveCursors := false |}.

Definition New (config : Config) : World :=
  let w :=
    {| manager :=
         {| config := config; tokens := ∅; sessions := ∅; host := None;
            cursors := ∅; apiSession := None |};
       objects := []; effects := [] |} in
  if decide (APIToken config ≠ EmptyString) then
    let '(api, w) := alloc (newSessionCtx "API" (APIToken config) apiProfile) w in
    setApiSession (Some api) w
  else w.

(** *** host *)

Definition SetHost (host : Session) (w : World) : World :=
  let w := setHostSlot host w in
  perform (Emit "host_changed" host) w.

Definition GetHost (w : World) : Session := host (manager w).

Definition ClearHost (w : World) : World := SetHost None w.

(** *** sessions *)

(** [Create]: [uid] is what [utils.NewUID(64)] returned. *)
Definition Create (uid : string * option error) (id : string)
    (profile : MemberProfile) (w : World)
    : (Session * string * option error) * World :=
  let '(token, err) := uid in
  match err with
  | Some err => ((None, EmptyString, Some err), w)
  | None =>
    match sessions (manager w) !! id with
    | Some _ => ((None, EmptyString, Some ErrSessionAlreadyExists), w)
    | None =>
      match tokens (manager w) !! token with
      | Some _ =>
        ((None, EmptyString, Some (ErrorsNew "session token already exists")), w)
      | None =>
        let '(session, w) := alloc (newSessionCtx id token profile) w in
        let w := setMaps (<[token := id]> (tokens (manager w)))
                         (<[id := session]> (sessions (manager w))) w in
        let w := perform (Emit "created" (Some session)) w in
        ((Some session, token, None), w)
      end
    end
  end.

(** Modelled from the spec: [SessionCtx.profileChanged] is declared in a file
    of package [session] that is not at hand.  Update "triggers any
    session-local reaction to profile change (e.g., re-evaluating whether the
    session may remain host)": the session, if it is the host and its profile
    no longer has [CanHost], gives up the host slot through [ClearHost].  The
    spec names no other reaction. *)
Definition profileChanged (session : loc) (w : World) : World :=
  if bool_decide (GetHost w = Some session) &&
     negb (CanHost (Profile (deref w session)))
  then ClearHost w
  else w.

(** [Update]: the effect [ProfileChanged] records the call of
    [session.profileChanged()], whose reaction follows it. *)
Definition Update (id : string) (profile : MemberProfile) (w : World)
    : option error * World :=
  match sessions (manager w) !! id with
  | None => (Some ErrSessionNotFound, w)
  | Some session =>
    let w := store session (setProfile profile (deref w session)) w in
    let w := perform (Emit "profile_changed" (Some session)) w in
    let w := perform (ProfileChanged session) w in
    let w := profileChanged session w in
    (None, w)
  end.

Definition Delete (id : string) (w : World) : option error * World :=
  match sessions (manager w) !! id with
  | None => (Some ErrSessionNotFound, w)
  | Some session =>
    let w := setMaps (delete (session_token (deref w session)) (tokens (manager w)))
                     (delete id (sessions (manager w))) w in
    let w :=
      if IsConnected (State (deref w session))
      then perform (WebSocketPeerDestroy session "session deleted") w
      else w in
    let w :=
      if IsWatching (State (deref w session))
      then perform (WebRTCPeerDestroy session) w
      else w in
    let w := perform (Emit "deleted" (Some session)) w in
    (None, w)
  end.

(** [Get]: of an interface value the model keeps the pointer it holds.  On a
    miss Go returns the zero [*SessionCtx] wrapped in the interface, with
    [false]: the result is not equal to [nil], but the pointer in it is, and
    that pointer is the [None] of the not-found result here. *)
Definition Get (id : string) (w : World) : Session * bool :=
  match sessions (manager w) !! id with
  | Some session => (Some session, true)
  | None => (None, false)
  end.

Definition GetByToken (token : string) (w : World) : Session * bool :=
  match tokens (manager w) !! token with
  | Some id => Get id w
  | None =>
    match apiSession (manager w) with
    | Some api =>
      if decide (session_token (deref w api) = token)
      then (Some api, true)
      else (None, false)
    | None => (None, false)
    end
  end.

(** [List]: the sessions of the map.  Go ranges over a map in an order of
    its choosing; [ListResult] holds of every list [List] may return. *)
Definition List (w : World) : list loc :=
  (map_to_list (sessions (manager w))).*2.

Definition ListResult (w : World) (snapshot : list loc) : Prop :=
  snapshot ≡ₚ List w.

(** *** cursors *)

Definition SetCursor (cursor : Cursor) (session : Session) (w : World) : World :=
  let list :=
    match cursors (manager w) !! session with
    | Some list => list
    | None => []
    end in
  let list := list ++ [cursor] in
  setCursors (<[session := list]> (cursors (manager w))) w.

Definition PopCursors (w : World) : gmap Session (list Cursor) * World :=
  let cursors := cursors (manager w) in
  let w := setCursors ∅ w in
  (cursors, w).

(** *** broadcasts *)

(** Modelled from the spec: [utils.ArrayIn] is declared in package [utils],
    which is not at hand; "skip any session whose id appears in exclude".
    Its second result, an index, is discarded by every caller here. *)
Definition ArrayIn (val : string) (array : list string) : bool :=
  bool_decide (val ∈ array).

(** The tail of the three loop bodies: the exclusion test and the send.
    [exclude] is [None] for a [nil] interface. *)
Definition sendUnlessExcluded (event : string) (payload : Payload)
    (exclude : option (list string)) (session : loc) (w : World) : World :=
  match exclude with
  | Some exclude =>
    if ArrayIn (ID (deref w session)) exclude then w
    else perform (Send session event payload) w
  | None => perform (Send session event payload) w
  end.

(** The three broadcasts range over [snapshot], the list [manager.List()]
    returned. *)
Definition Broadcast (snapshot : list loc) (event : string) (payload : Payload)
    (exclude : option (list string)) (w : World) : World :=
  foldl (fun w session =>
    if negb (IsConnected (State (deref w session))) then w
    else sendUnlessExcluded event payload exclude session w) w snapshot.

Definition AdminBroadcast (snapshot : list loc) (event : string)
    (payload : Payload) (exclude : option (list string)) (w : World) : World :=
  foldl (fun w session =>
    if negb (IsConnected (State (deref w session)))
       || negb (IsAdmin (Profile (deref w session))) then w
    else sendUnlessExcluded event payload exclude session w) w snapshot.

Definition InactiveCursorsBroadcast (snapshot : list loc) (event : string)
    (payload : Payload) (exclude : option (list string)) (w : World) : World :=
  foldl (fun w session =>
    if negb (IsConnected (State (deref w session)))
       || negb (CanSeeInactiveCursors (Profile (deref w session))) then w
    else sendUnlessExcluded event payload exclude session w) w snapshot.

(** *** config *)

Definition ImplicitHosting (w : World) : bool :=
  ImplicitHosting_ (config (manager w)).
Definition InactiveCursors (w : World) : bool :=
  InactiveCursors_ (config (manager w)).
Definition CookieEnabled (w : World) : bool :=
  CookieEnabled_ (config (manager w)).
Definition MercifulReconnect (w : World) : bool :=
  MercifulReconnect_ (config (manager w)).

(** *** call sequences *)

(** The calls that change the registry, with their arguments (and, for
    [Create], what the token generator returned). *)
Inductive Call :=
  | CallCreate (uid : string * option error) (id : string) (profile : MemberProfile)
  | CallUpdate (id : string) (profile : MemberProfile)
  | CallDelete (id : string)
  | CallSetHost (host : Session)
  | CallClearHost
  | CallSetCursor (cursor : Cursor) (session : Session)
  | CallPopCursors.

Definition exec (c : Call) (w : World) : World :=
  match c with
  | CallCreate uid id profile => (Create uid id profile w).2
  | CallUpdate id profile => (Update id profile w).2
  | CallDelete id => (Delete id w).2
  | CallSetHost host => SetHost host w
  | CallClearHost => ClearHost w
  | CallSetCursor cursor session => SetCursor cursor session w
  | CallPopCursors => (PopCursors w).2
  end.

Definition run (calls : list Call) (w : World) : World :=
  foldl (fun w c => exec c w) w calls.

End SessionManager.

(** ** internal/webrtc *)

Module WebRTCPeer.

(** [webrtc.SDPType], [webrtc.SessionDescription], [webrtc.ICECandidateInit]
    of pion. *)
Inductive SDPType :=
  | SDPTypeOffer
  | SDPTypePranswer
  | SDPTypeAnswer
  | SDPTypeRollback.

#[global] Instance SDPType_eq_dec : EqDecision SDPType.
Proof. solve_decision. Defined.

Record SessionDescription := {
  Type_ : SDPType;
  SDP : string
}.

Record ICECandidateInit := {
  Candidate : string;
  SDPMid : option string;
  SDPMLineIndex : option Z
}.

(** The methods of [*webrtc.PeerConnection] that the peer calls.  The
    connection belongs to pion; a call takes its state and gives the next.
    [GatheringCompletePromise] arms the channel that is closed once candidate
    gathering is complete; [awaitGathering] is the receive from that channel:
    the connection at the moment the channel is closed, or [None] when it
    never is. *)
Class PeerConnection (PC : Type) := {
  pcCreateOffer : bool → PC → (SessionDescription * option error) * PC;
  pcCreateAnswer : PC → (SessionDescription * option error) * PC;
  GatheringCompletePromise : PC → PC;
  pcSetLocalDescription : SessionDescription → PC → option error * PC;
  awaitGathering : PC → option PC;
  pcLocalDescription : PC → option SessionDescription;
  pcSetRemoteDescription : SessionDescription → PC → option error * PC;
  pcAddICECandidate : ICECandidateInit → PC → option error * PC;
  pcClose : PC → option error * PC
}.

(** What the peer does besides calling its live connection. *)
Inductive PeerEffect :=
  | LogInfo (video_id : string) (msg : string)
  | LogErr (err : option error) (msg : string)
  | ChangeVideo (videoID : string)
  | ConnectionClose.

#[global] Instance PeerEffect_eq_dec : EqDecision PeerEffect.
Proof. solve_decision. Defined.

(** How a call ends: it returns, it never returns (a receive from a channel
    that is never closed), or it dereferences a nil connection. *)
Inductive Outcome (A : Type) :=
  | Returns (a : A)
  | Blocks
  | Panics.

Arguments Returns {A} a.
Arguments Blocks {A}.
Arguments Panics {A}.

Section Peer.

Context {PC : Type} `{!PeerConnection PC}.

Record WebRTCPeerCtx := {
  connection : option PC;
  dataChannel : option nat;
  changeVideo : string → option error;
  iceTrickle : bool
}.

(** The peer and the effects it performed so far. *)
Record PeerWorld := {
  peer : WebRTCPeerCtx;
  peerEffects : list PeerEffect
}.

(** [peer.connection = c], and the state of the connection after a call. *)
Definition setConnection (c : option PC) (st : PeerWorld) : PeerWorld :=
  {| peer :=
       {| connection := c; dataChannel := dataChannel (peer st);
          changeVideo := changeVideo (peer st);
          iceTrickle := iceTrickle (peer st) |};
     peerEffects := peerEffects st |}.

Definition record (e : PeerEffect) (st : PeerWorld) : PeerWorld :=
  {| peer := peer st; peerEffects := peerEffects st ++ [e] |}.

Definition setLocalDescription (description : SessionDescription)
    (st : PeerWorld)
    : Outcome ((option SessionDescription * option error) * PeerWorld) :=
  match connection (peer st) with
  | None => Panics
  | Some c =>
    if negb (iceTrickle (peer st)) then
      let c := GatheringCompletePromise c in
      let '(err, c) := pcSetLocalDescription description c in
      match err with
      | Some err => Returns ((None, Some err), setConnection (Some c) st)
      | None =>
        match awaitGathering c with
        | None => Blocks
        | Some c =>
          Returns ((pcLocalDescription c, None), setConnection (Some c) st)
        end
      end
    else
      let '(err, c) := pcSetLocalDescription description c in
      match err with
      | Some err => Returns ((None, Some err), setConnection (Some c) st)
      | None =>
        Returns ((pcLocalDescription c, None), setConnection (Some c) st)
      end
  end.

Definition CreateOffer (ICERestart : bool) (st : PeerWorld)
    : Outcome ((option SessionDescription * option error) * PeerWorld) :=
  match connection (peer st) with
  | None => Returns ((None, Some ErrWebRTCConnectionNotFound), st)
  | Some c =>
    let '((offer, err), c) := pcCreateOffer ICERestart c in
    let st := setConnection (Some c) st in
    match err with
    | Some err => Returns ((None, Some err), st)
    | None => setLocalDescription offer st
    end
  end.

Definition CreateAnswer (st : PeerWorld)
    : Outcome ((option SessionDescription * option error) * PeerWorld) :=
  match connection (peer st) with
  | None => Returns ((None, Some ErrWebRTCConnectionNotFound), st)
  | Some c =>
    let '((answer, err), c) := pcCreateAnswer c in
    let st := setConnection (Some c) st in
    match err with
    | Some err => Returns ((None, Some err), st)
    | None => setLocalDescription answer st
    end
  end.

Definition SetOffer (sdp : string) (st : PeerWorld) : option error * PeerWorld :=
  match connection (peer st) with
  | None => (Some ErrWebRTCConnectionNotFound, st)
  | Some c =>
    let '(err, c) :=
      pcSetRemoteDescription {| SDP := sdp; Type_ := SDPTypeOffer |} c in
    (err, setConnection (Some c) st)
  end.

Definition SetAnswer (sdp : string) (st : PeerWorld) : option error * PeerWorld :=
  match connection (peer st) with
  | None => (Some ErrWebRTCConnectionNotFound, st)
  | Some c =>
    let '(err, c) :=
      pcSetRemoteDescription {| SDP := sdp; Type_ := SDPTypeAnswer |} c in
    (err, setConnection (Some c) st)
  end.

Definition SetCandidate (candidate : ICECandidateInit) (st : PeerWorld)
    : option error * PeerWorld :=
  match connection (peer st) with
  | None => (Some ErrWebRTCConnectionNotFound, st)
  | Some c =>
    let '(err, c) := pcAddICECandidate candidate c in
    (err, setConnection (Some c) st)
  end.

Definition SetVideoID (videoID : string) (st : PeerWorld)
    : option error * PeerWorld :=
  match connection (peer st) with
  | None => (Some ErrWebRTCConnectionNotFound, st)
  | Some _ =>
    let st := record (LogInfo videoID "change video id") st in
    let st := record (ChangeVideo videoID) st in
    (changeVideo (peer st) videoID, st)
  end.

Definition Destroy (st : PeerWorld) : PeerWorld :=
  match connection (peer st) with
  | Some c =>
    let '(err, _) := pcClose c in
    let st := record ConnectionClose st in
    let st := record (LogErr err "peer connection destroyed") st in
    setConnection None st
  | None => st
  end.

(** The number of times the underlying connection was closed. *)
Definition closes (st : PeerWorld) : nat :=
  length (filter (eq ConnectionClose) (peerEffects st)).

End Peer.

Arguments WebRTCPeerCtx PC : clear implicits.
Arguments PeerWorld PC : clear implicits.

End WebRTCPeer.

(** ** Properties of the registry: definitions *)

Module RegistrySpec.

Import SessionManager.

Implicit Types (w : World) (session : loc) (id token : string).

(** Every pointer the registry holds refers to an allocated object. *)
Definition valid w : Prop :=
  (∀ id session, sessions (manager w) !! id = Some session →
     session < length (objects w)) ∧
  (∀ api, apiSession (manager w) = Some api → api < length (objects w)).

(** The token map and the session map agree: a token resolves to the id of a
    registered session that carries this token, and the token of a registered
    session resolves to its id. *)
Definition consistent w : Prop :=
  (∀ token id, tokens (manager w) !! token = Some id →
     ∃ session, sessions (manager w) !! id = Some session ∧
                session_token (deref w session) = token) ∧
  (∀ id session, sessions (manager w) !! id = Some session →
     tokens (manager w) !! session_token (deref w session) = Some id).

(** The service session, when a service token is configured: it carries that
    token and the id "API", and is not in the session map. *)
Definition service w : Prop :=
  match apiSession (manager w) with
  | Some api =>
    APIToken (config (manager w)) ≠ EmptyString ∧
    session_token (deref w api) = APIToken (config (manager w)) ∧
    session_id (deref w api) = "API" ∧
    ∀ id, sessions (manager w) !! id ≠ Some api
  | None => APIToken (config (manager w)) = EmptyString
  end.

(** The invariant of the worlds the registry goes through. *)
Definition inv w : Prop := valid w ∧ consistent w ∧ service w.

(** The worlds a sequence of calls leads to from a new registry. *)
Definition reachable w : Prop :=
  ∃ config calls, w = run calls (New config).

(** *** Cursor ledger: the cursors passed to [SetCursor] for [session] since
    the last [PopCursors]. *)
Definition pending (calls : list Call) (session : Session) : list Cursor :=
  foldl (fun acc c =>
    match c with
    | CallSetCursor cursor session' =>
      if decide (session' = session) then acc ++ [cursor] else acc
    | CallPopCursors => []
    | _ => acc
    end) [] calls.

(** What a drain returns for [session] when [pending] is the list above: no
    entry when nothing was set. *)
Definition ledgerEntry (cs : list Cursor) : option (list Cursor) :=
  match cs with
  | [] => None
  | _ => Some cs
  end.

(** *** Broadcast recipients *)

Definition excluded (exclude : option (list string)) (s : SessionCtx) : bool :=
  match exclude with
  | Some exclude => bool_decide (session_id s ∈ exclude)
  | None => false
  end.

(** [session] gets the payload: it passes the filter [keep] of the broadcast
    and is not excluded. *)
Definition receives (keep : SessionCtx → bool) (exclude : option (list string))
    (objs : list SessionCtx) session : bool :=
  let s := default zeroSessionCtx (objs !! session) in
  keep s && negb (excluded exclude s).

Definition connected (s : SessionCtx) : bool := IsConnected (State s).
Definition connectedAdmin (s : SessionCtx) : bool :=
  IsConnected (State s) && IsAdmin (Profile s).
Definition connectedInactiveCursors (s : SessionCtx) : bool :=
  IsConnected (State s) && CanSeeInactiveCursors (Profile s).

Definition registered w session : Prop :=
  ∃ id, sessions (manager w) !! id = Some session.

Definition sends (event : string) (payload : Payload) (ls : list loc)
    : list Effect :=
  (fun session => Send session event payload) <$> ls.

Definition appendEffects (es : list Effect) w : World :=
  {| manager := manager w; objects := objects w; effects := effects w ++ es |}.

(** A broadcast with filter [keep] over [snapshot] took [w] to [w']: the
    registry and the objects are as before, and the effects added are one
    send per recipient of the snapshot, in its order; these are one send per
    entry of the session map whose session is a recipient, and a session is
    sent to exactly when it is registered, passes [keep] and is not
    excluded. *)
Definition delivers (keep : SessionCtx → bool) (event : string)
    (payload : Payload) (exclude : option (list string))
    (snapshot : list loc) w w' : Prop :=
  manager w' = manager w ∧ objects w' = objects w ∧
  ∃ sent,
    effects w' = effects w ++ sent ∧
    sent = sends event payload
             (filter (fun session => receives keep exclude (objects w) session = true)
                     snapshot) ∧
    sent ≡ₚ sends event payload
             (filter (fun session => receives keep exclude (objects w) session = true)
                     (List w)) ∧
    ∀ session,
      Send session event payload ∈ sent ↔
      registered w session ∧ keep (deref w session) = true ∧
      excluded exclude (deref w session) = false.

(** *** The two sentences that do not hold as they are written *)

(** "Create with an already-registered id fails with AlreadyExists." *)
Definition duplicate_create_fails_already_exists
    (uid : string * option error) id (profile : MemberProfile) w : Prop :=
  is_Some (sessions (manager w) !! id) →
  Create uid id profile w = ((None, EmptyString, Some ErrSessionAlreadyExists), w).

(** "Whenever a service token is configured, GetByToken called with exactly
    that token resolves the service session." *)
Definition service_token_resolves_service_session
    (config : Config) (calls : list Call) : Prop :=
  APIToken config ≠ EmptyString →
  let w := run calls (New config) in
  GetByToken (APIToken config) w = (apiSession (manager w), true).

(** *** Sample data *)

Definition sampleConfig : Config :=
  {| APIToken := "service-token"; ImplicitHosting_ := false;
     InactiveCursors_ := true; CookieEnabled_ := true;
     MercifulReconnect_ := true |}.

Definition hostProfile : MemberProfile :=
  {| Name := "u1"; IsAdmin := false; CanLogin := true; CanConnect := true;
     CanWatch := true; CanHost := true; CanAccessClipboard := false;
     CanSeeInactiveCursors := false |}.

Definition adminProfile : MemberProfile :=
  {| Name := "admin"; IsAdmin := true; CanLogin := true; CanConnect := true;
     CanWatch := true; CanHost := true; CanAccessClipboard := true;
     CanSeeInactiveCursors := true |}.

Definition guestProfile : MemberProfile :=
  {| Name := "guest"; IsAdmin := false; CanLogin := true; CanConnect := true;
     CanWatch := true; CanHost := false; CanAccessClipboard := false;
     CanSeeInactiveCursors := false |}.

(** A registry with the session "u1". *)
Definition oneSession : World :=
  run [CallCreate ("token-u1", None) "u1" hostProfile] (New sampleConfig).

(** Scenario B: the sessions "admin" and "guest", both with a live websocket
    peer. *)
Definition adminAndGuest : World :=
  let w :=
    run [CallCreate ("token-admin", None) "admin" adminProfile;
         CallCreate ("token-guest", None) "guest" guestProfile]
        (New sampleConfig) in
  {| manager := manager w;
     objects :=
       (fun s =>
          {| session_id := session_id s; session_token := session_token s;
             session_profile := session_profile s;
             websocketPeer := Some 0%nat; webrtcPeer := webrtcPeer s |})
       <$> objects w;
     effects := effects w |}.

End RegistrySpec.

(** ** Properties of the peer: definitions *)

Module PeerSpec.

Import WebRTCPeer.



(** A simulated connection.  It refuses every call once closed, refuses a
    description with an empty SDP, and completes gathering if [simGathers];
    the gathered local description carries one candidate line. *)
Record SimConnection := {
  simClosed : bool;
  simGathers : bool;
  simArmed : bool;
  simLocal : option SessionDescription;
  simRemote : option SessionDescription;
  simCandidates : list ICECandidateInit
}.

Definition simError : error := ErrExternal "InvalidStateError".

Definition simSetLocal (d : SessionDescription) (c : SimConnection)
    : option error * SimConnection :=
  if simClosed c || bool_decide (SDP d = EmptyString) then (Some simError, c)
  else
    (None,
     {| simClosed := false; simGathers := simGathers c; simArmed := simArmed c;
        simLocal := Some d; simRemote := simRemote c;
        simCandidates := simCandidates c |}).

Definition simSetRemote (d : SessionDescription) (c : SimConnection)
    : option error * SimConnection :=
  if simClosed c || bool_decide (SDP d = EmptyString) then (Some simError, c)
  else
    (None,
     {| simClosed := false; simGathers := simGathers c; simArmed := simArmed c;
        simLocal := simLocal c; simRemote := Some d;
        simCandidates := simCandidates c |}).

Definition simGather (c : SimConnection) : option SimConnection :=
  if simGathers c then
    Some
      {| simClosed := simClosed c; simGathers := true; simArmed := simArmed c;
         simLocal :=
           (fun d => {| Type_ := Type_ d; SDP := SDP d +:+ "a=candidate" |})
           <$> simLocal c;
         simRemote := simRemote c; simCandidates := simCandidates c |}
  else None.

#[global] Instance simPeerConnection : PeerConnection SimConnection := {|
  pcCreateOffer := fun _ c =>
    if simClosed c then (({| Type_ := SDPTypeOffer; SDP := EmptyString |}, Some simError), c)
    else (({| Type_ := SDPTypeOffer; SDP := "v=0 offer" |}, None), c);
  pcCreateAnswer := fun c =>
    if simClosed c || bool_decide (simRemote c = None)
    then (({| Type_ := SDPTypeAnswer; SDP := EmptyString |}, Some simError), c)
    else (({| Type_ := SDPTypeAnswer; SDP := "v=0 answer" |}, None), c);
  GatheringCompletePromise := fun c =>
    {| simClosed := simClosed c; simGathers := simGathers c; simArmed := true;
       simLocal := simLocal c; simRemote := simRemote c;
       simCandidates := simCandidates c |};
  pcSetLocalDescription := simSetLocal;
  awaitGathering := simGather;
  pcLocalDescription := simLocal;
  pcSetRemoteDescription := simSetRemote;
  pcAddICECandidate := fun i c =>
    if simClosed c then (Some simError, c)
    else
      (None,
       {| simClosed := false; simGathers := simGathers c;
          simArmed := simArmed c; simLocal := simLocal c;
          simRemote := simRemote c;
          simCandidates := simCandidates c ++ [i] |});
  pcClose := fun c =>
    (None,
     {| simClosed := true; simGathers := simGathers c; simArmed := simArmed c;
        simLocal := simLocal c; simRemote := simRemote c;
        simCandidates := simCandidates c |})
|}.

Definition simFresh (gathers : bool) : SimConnection :=
  {| simClosed := false; simGathers := gathers; simArmed := false;
     simLocal := None; simRemote := None; simCandidates := [] |}.

Definition simPeer (c : option SimConnection) (trickle : bool)
    : PeerWorld SimConnection :=
  {| peer :=
       {| connection := c; dataChannel := None;
          changeVideo := fun videoID =>
            if bool_decide (videoID = "hd") then None
            else Some (ErrExternal "unknown video id");
          iceTrickle := trickle |};
     peerEffects := [] |}.

(** A connection that accepts every call, completes gathering, and reports
    no local description. *)
Inductive MuteConnection := Mute.

#[global] Instance mutePeerConnection : PeerConnection MuteConnection := {|
  pcCreateOffer := fun _ c =>
    (({| Type_ := SDPTypeOffer; SDP := "v=0 offer" |}, None), c);
  pcCreateAnswer := fun c =>
    (({| Type_ := SDPTypeAnswer; SDP := "v=0 answer" |}, None), c);
  GatheringCompletePromise := fun c => c;
  pcSetLocalDescription := fun _ c => (None, c);
  awaitGathering := fun c => Some c;
  pcLocalDescription := fun _ => None;
  pcSetRemoteDescription := fun _ c => (None, c);
  pcAddICECandidate := fun _ c => (None, c);
  pcClose := fun c => (None, c)
|}.


End PeerSpec.

(** ** Event subscriptions *)

Module Events.

Import SessionManager.

(** What an [On...] method registers with [emmiter.On]: the name of the
    event and the closure around the listener.  Applied to the payload of an
    emission the closure calls the listener; [None] is the panic of the type
    assertion [payload[0].( *SessionCtx)] on a nil payload. *)
Record Subscription (A : Type) := {
  subEvent : string;
  subHandler : Session → option A
}.

Arguments subEvent {A} _.
Arguments subHandler {A} _.

(** [listener(payload[0].( *SessionCtx))] *)
Definition asserting {A} (listener : Session → A) (payload : Session) : option A :=
  match payload with
  | Some session => Some (listener (Some session))
  | None => None
  end.

Definition OnCreated {A} (listener : Session → A) : Subscription A :=
  {| subEvent := "created"; subHandler := asserting listener |}.

Definition OnDeleted {A} (listener : Session → A) : Subscription A :=
  {| subEvent := "deleted"; subHandler := asserting listener |}.

Definition OnConnected {A} (listener : Session → A) : Subscription A :=
  {| subEvent := "connected"; subHandler := asserting listener |}.

Definition OnDisconnected {A} (listener : Session → A) : Subscription A :=
  {| subEvent := "disconnected"; subHandler := asserting listener |}.

Definition OnProfileChanged {A} (listener : Session → A) : Subscription A :=
  {| subEvent := "profile_changed"; subHandler := asserting listener |}.

Definition OnStateChanged {A} (listener : Session → A) : Subscription A :=
  {| subEvent := "state_changed"; subHandler := asserting listener |}.

Definition OnHostChanged {A} (listener : Session → A) : Subscription A :=
  {| subEvent := "host_changed";
     subHandler := fun payload =>
       match payload with
       | None => Some (listener None)
       | Some session => asserting listener (Some session)
       end |}.

(** [emmiter.Emit(event, payload)]: the emitter, a library, calls the
    closures registered under [event].  [fire sub e] is what the closure of
    [sub] does when the registry performs [e], and [listenerCalls sub es] what it does
    over the effects [es], for a subscription made before them. *)
Definition fire {A} (sub : Subscription A) (e : Effect) : list (option A) :=
  match e with
  | Emit event payload =>
    if decide (event = subEvent sub) then [subHandler sub payload] else []
  | _ => []
  end.

Definition listenerCalls {A} (sub : Subscription A) (es : list Effect) : list (option A) :=
  es ≫= fire sub.

(** The effects a call added. *)
Definition added (w w' : World) : list Effect :=
  drop (length (effects w)) (effects w').

End Events.

(** ** A command handler: screenSet *)

Module Handler.

Import SessionManager.

(** [types.ScreenSize]; [Rate] is an [int16].  The payload type
    [message.ScreenSize] converts to it field by field. *)
Record ScreenSize := {
  Width : Z;
  Height : Z;
  Rate : Z
}.

Section ScreenSet.

(** The desktop collaborator and its [SetScreenSize], the constant
    [event.SCREEN_UPDATED], and the serialisation of the payload are not in
    the files at hand: they are parameters. *)
Context {Desktop : Type}.
Variable SetScreenSize : ScreenSize → Desktop → option error * Desktop.
Variable SCREEN_UPDATED : string.
Variable encode : ScreenSize → Payload.

Record MessageHandlerCtx := {
  desktop : Desktop;
  sessions_ : World
}.

(** [snapshot] is what [manager.List()] returns inside [Broadcast]. *)
Definition screenSet (snapshot : list loc) (session : loc)
    (payload : ScreenSize) (h : MessageHandlerCtx)
    : option error * MessageHandlerCtx :=
  if negb (IsAdmin (Profile (deref (sessions_ h) session))) then
    (Some (ErrorsNew "is not the admin"), h)
  else
    let data := payload in
    let '(err, d) := SetScreenSize data (desktop h) in
    match err with
    | Some err => (Some err, {| desktop := d; sessions_ := sessions_ h |})
    | None =>
      (None,
       {| desktop := d;
          sessions_ :=
            Broadcast snapshot SCREEN_UPDATED (encode payload) None
              (sessions_ h) |})
    end.

End ScreenSet.

Arguments MessageHandlerCtx Desktop : clear implicits.

(** A desktop that remembers its screen size and refuses a size without
    pixels. *)
Definition simSetScreenSize (size : ScreenSize) (d : option ScreenSize)
    : option error * option ScreenSize :=
  if bool_decide (0 < Width size)%Z && bool_decide (0 < Height size)%Z
  then (None, Some size)
  else (Some (ErrExternal "invalid screen size"), d).

Definition simEncode (size : ScreenSize) : Payload := "screen".

End Handler.

(** ** More properties of the registry: definitions *)

Module RegistryLaws.

Import SessionManager RegistrySpec Events.

Implicit Types (w : World) (session : loc) (id token : string).

(** A registered session carries the key it is registered under. *)
Definition ids_agree w : Prop :=
  ∀ id session, sessions (manager w) !! id = Some session →
    session_id (deref w session) = id.

(** Two keys never share a session object. *)
Definition injective w : Prop :=
  ∀ id id' session,
    sessions (manager w) !! id = Some session →
    sessions (manager w) !! id' = Some session → id = id'.

Definition created w session : Prop :=
  Emit "created" (Some session) ∈ effects w.

Definition deleted w session : Prop :=
  Emit "deleted" (Some session) ∈ effects w.

(** The events tell who is registered: the sessions announced as created and
    not as deleted. *)
Definition events_sync w : Prop :=
  (∀ session, created w session → session < length (objects w)) ∧
  (∀ session, deleted w session → created w session) ∧
  (∀ session, registered w session ↔ created w session ∧ ¬ deleted w session).

(** The invariant of the worlds the registry goes through, second part. *)
Definition inv2 w : Prop :=
  valid w ∧ consistent w ∧ ids_agree w ∧ injective w ∧ events_sync w ∧
  size (tokens (manager w)) = size (sessions (manager w)).

(** The payloads of the host_changed events, in order. *)
Definition hostEvents (es : list Effect) : list Session :=
  omap (fun e =>
    match e with
    | Emit event payload =>
      if decide (event = "host_changed") then Some payload else None
    | _ => None
    end) es.

(** An Update to [profile] costs [session] the host slot: it is the host and
    the profile has no [CanHost]. *)
Definition losesHost w session (profile : MemberProfile) : bool :=
  bool_decide (GetHost w = Some session) && negb (CanHost profile).

(** The host after a call, given the host before it, and the payloads of the
    host_changed events the call emits: only SetHost, ClearHost and an Update
    that costs the host its slot touch the host. *)
Definition hostAfter (c : Call) w : Session :=
  match c with
  | CallSetHost host => host
  | CallClearHost => None
  | CallUpdate id profile =>
    match sessions (manager w) !! id with
    | Some session => if losesHost w session profile then None else GetHost w
    | None => GetHost w
    end
  | _ => GetHost w
  end.

Definition hostChanges (c : Call) w : list Session :=
  match c with
  | CallSetHost host => [host]
  | CallClearHost => [None]
  | CallUpdate id profile =>
    match sessions (manager w) !! id with
    | Some session => if losesHost w session profile then [None] else []
    | None => []
    end
  | _ => []
  end.

(** The events the registry itself emits: the four lifecycle events, and a
    nil payload with host_changed only. *)
Definition registryEvent (e : Effect) : bool :=
  match e with
  | Emit event payload =>
    bool_decide (event = "host_changed") ||
    (bool_decide (is_Some payload) &&
     bool_decide (event ∈ ["created"; "deleted"; "profile_changed"]))
  | _ => true
  end.

(** The teardown a [Delete] performs for a session in state [s]. *)
Definition teardown (s : SessionCtx) session : list Effect :=
  (if IsConnected (State s)
   then [WebSocketPeerDestroy session "session deleted"] else []) ++
  (if IsWatching (State s) then [WebRTCPeerDestroy session] else []).

(** The recipients of a broadcast with filter [keep]. *)
Definition recipients (keep : SessionCtx → bool) (exclude : option (list string))
    (snapshot : list loc) w : list loc :=
  filter (fun session => receives keep exclude (objects w) session = true) snapshot.

(** The sessions "u1" and "u2", the first one the host, with one cursor. *)
Definition twoSessions : World :=
  run [CallCreate ("token-u1", None) "u1" hostProfile;
       CallCreate ("token-u2", None) "u2" guestProfile;
       CallSetHost (Some 1);
       CallSetCursor {| X := 10; Y := 20 |} (Some 1)]
      (New sampleConfig).

(** The session "u1", the host, with a live websocket peer and a live WebRTC
    peer. *)
Definition liveSession : World :=
  let w := SetHost (Some 1) oneSession in
  {| manager := manager w;
     objects :=
       <[1%nat :=
           {| session_id := "u1"; session_token := "token-u1";
              session_profile := hostProfile;
              websocketPeer := Some 7%nat; webrtcPeer := Some 8%nat |}]>
       (objects w);
     effects := effects w |}.

End RegistryLaws.

(** ** Sequences of peer operations: definitions *)

Module PeerRuns.

Import WebRTCPeer PeerSpec.

Section Runs.

Context {PC : Type} `{!PeerConnection PC}.

Inductive PeerCall :=
  | CallCreateOffer (ICERestart : bool)
  | CallCreateAnswer
  | CallSetOffer (sdp : string)
  | CallSetAnswer (sdp : string)
  | CallSetCandidate (candidate : ICECandidateInit)
  | CallSetVideoID (videoID : string)
  | CallDestroy.

(** The peer after a call, when the call returns. *)
Definition after {A} (o : Outcome (A * PeerWorld PC)) : Outcome (PeerWorld PC) :=
  match o with
  | Returns (_, st) => Returns st
  | Blocks => Blocks
  | Panics => Panics
  end.

Definition execPeer (c : PeerCall) (st : PeerWorld PC) : Outcome (PeerWorld PC) :=
  match c with
  | CallCreateOffer ICERestart => after (CreateOffer ICERestart st)
  | CallCreateAnswer => after (CreateAnswer st)
  | CallSetOffer sdp => Returns (SetOffer sdp st).2
  | CallSetAnswer sdp => Returns (SetAnswer sdp st).2
  | CallSetCandidate candidate => Returns (SetCandidate candidate st).2
  | CallSetVideoID videoID => Returns (SetVideoID videoID st).2
  | CallDestroy => Returns (Destroy st)
  end.

(** The calls one after the other; a call that does not return keeps the
    mutex of the peer, so nothing runs after it. *)
Fixpoint runPeer (calls : list PeerCall) (st : PeerWorld PC)
    : Outcome (PeerWorld PC) :=
  match calls with
  | [] => Returns st
  | c :: calls =>
    match execPeer c st with
    | Returns st => runPeer calls st
    | Blocks => Blocks
    | Panics => Panics
    end
  end.

(** 1 for a live connection, 0 for nil. *)
Definition live (st : PeerWorld PC) : nat :=
  match connection (peer st) with
  | Some _ => 1
  | None => 0
  end.

(** What a call that returns leaves as it was, and what it changes. *)
Definition kept (st st' : PeerWorld PC) : Prop :=
  iceTrickle (peer st') = iceTrickle (peer st) ∧
  dataChannel (peer st') = dataChannel (peer st) ∧
  changeVideo (peer st') = changeVideo (peer st) ∧
  (live st' ≤ live st)%nat ∧
  closes st' + live st' = closes st + live st.

(** The ids the video callback was called with, in order. *)
Definition videoChanges (st : PeerWorld PC) : list string :=
  omap (fun e => match e with ChangeVideo videoID => Some videoID | _ => None end)
       (peerEffects st).

End Runs.

End PeerRuns.

(** ** The registry: proofs *)

Module RegistryProofs.

Import SessionManager RegistrySpec.

Implicit Types (w : World) (session : loc) (id token : string).

Lemma run_snoc calls c w : run (calls ++ [c]) w = exec c (run calls w).
Proof. unfold run. by rewrite foldl_app. Qed.

(** *** Reading the object store *)

Lemma deref_alloc_old s w session :
  session < length (objects w) → deref (alloc s w).2 session = deref w session.
Proof. intros Hl. unfold deref. simpl. by rewrite lookup_app_l. Qed.

Lemma deref_alloc_new s w : deref (alloc s w).2 (alloc s w).1 = s.
Proof.
  unfold deref. simpl.
  rewrite lookup_app_r; [|done]. by rewrite Nat.sub_diag.
Qed.

Lemma deref_setProfile w session profile session' :
  let w' := store session (setProfile profile (deref w session)) w in
  session_token (deref w' session') = session_token (deref w session') ∧
  session_id (deref w' session') = session_id (deref w session') ∧
  State (deref w' session') = State (deref w session').
Proof.
  unfold deref. simpl.
  destruct (decide (session = session')) as [<-|Hne].
  - destruct (objects w !! session) as [s|] eqn:Hs.
    + rewrite list_lookup_insert_eq; [done|]. by eapply lookup_lt_Some.
    + rewrite list_insert_ge; [by rewrite Hs|]. by apply lookup_ge_None.
  - by rewrite list_lookup_insert_ne.
Qed.

(** *** Update and the reaction of the session *)

Lemma profileChanged_frame session w :
  objects (profileChanged session w) = objects w ∧
  config (manager (profileChanged session w)) = config (manager w) ∧
  tokens (manager (profileChanged session w)) = tokens (manager w) ∧
  sessions (manager (profileChanged session w)) = sessions (manager w) ∧
  cursors (manager (profileChanged session w)) = cursors (manager w) ∧
  apiSession (manager (profileChanged session w)) = apiSession (manager w).
Proof. unfold profileChanged. by destruct (_ && _). Qed.

Lemma profileChanged_change session w :
  let reacts :=
    bool_decide (GetHost w = Some session) &&
    negb (CanHost (Profile (deref w session))) in
  GetHost (profileChanged session w) = (if reacts then None else GetHost w) ∧
  effects (profileChanged session w) =
    effects w ++ (if reacts then [Emit "host_changed" None] else []).
Proof.
  unfold profileChanged. destruct (_ && _); simpl; [done|].
  by rewrite app_nil_r.
Qed.

Lemma Update_found id session profile w :
  sessions (manager w) !! id = Some session →
  Update id profile w =
  (None,
   profileChanged session
     {| manager := manager w;
        objects := <[session := setProfile profile (deref w session)]> (objects w);
        effects := effects w ++ [Emit "profile_changed" (Some session);
                                 ProfileChanged session] |}).
Proof.
  intros Hid. unfold Update. rewrite Hid. unfold perform, store. simpl.
  by rewrite <- app_assoc.
Qed.

(** *** The invariant of the reachable worlds *)

Lemma inv_New config : inv (New config).
Proof.
  unfold New. case_decide as Hcfg; simpl.
  - repeat split; simpl; try (intros; simplify_map_eq; lia); try done.
  - repeat split; simpl; try (intros; simplify_map_eq); try done.
Qed.

Lemma inv_Create uid id profile w : inv w → inv (Create uid id profile w).2.
Proof.
  intros (Hv & Hc & Hs). unfold Create.
  destruct uid as [token [err|]]; [done|].
  destruct (sessions (manager w) !! id) as [?|] eqn:Hid; [done|].
  destruct (tokens (manager w) !! token) as [?|] eqn:Htok; [done|].
  destruct Hv as [Hv1 Hv2]. destruct Hc as [Hc1 Hc2].
  set (s := newSessionCtx id token profile).
  assert (Hold : ∀ session, session < length (objects w) →
    default zeroSessionCtx ((objects w ++ [s]) !! session) = deref w session).
  { intros session Hlt. apply (deref_alloc_old s w session Hlt). }
  assert (Hnew : default zeroSessionCtx ((objects w ++ [s]) !! length (objects w)) = s).
  { apply (deref_alloc_new s w). }
  split; [|split].
  - split; simpl; rewrite ?length_app; simpl.
    + intros id' session. rewrite lookup_insert.
      case_decide; intros; simplify_eq; [lia|].
      etrans; [by eapply Hv1|lia].
    + intros api Hapi. etrans; [by eapply Hv2|lia].
  - split; simpl; unfold deref; simpl.
    + intros token' id'. rewrite lookup_insert. case_decide as Ht.
      * intros [= <-]. subst token'. exists (length (objects w)).
        by rewrite lookup_insert_eq, Hnew.
      * intros Hl. destruct (Hc1 _ _ Hl) as (session & Hsess & Htk).
        exists session. rewrite lookup_insert_ne by congruence.
        split; [done|]. rewrite Hold; [done|]. by eapply Hv1.
    + intros id' session. rewrite lookup_insert. case_decide as Hi.
      * intros [= <-]. subst id'. by rewrite Hnew, lookup_insert_eq.
      * intros Hl. rewrite Hold by (by eapply Hv1).
        rewrite lookup_insert_ne; [by apply Hc2|].
        intros ->. specialize (Hc2 _ _ Hl). congruence.
  - unfold service in *. simpl.
    destruct (apiSession (manager w)) as [api|] eqn:Hapi; [|done].
    destruct Hs as (Hne & Htk & Hsid & Hnot).
    unfold deref; simpl. rewrite Hold by (by eapply Hv2).
    repeat split; try done.
    intros id'. rewrite lookup_insert. case_decide; [|done].
    intros [= Heq]. specialize (Hv2 _ eq_refl). lia.
Qed.

Lemma inv_Update id profile w : inv w → inv (Update id profile w).2.
Proof.
  intros (Hv & Hc & Hs).
  destruct (sessions (manager w) !! id) as [session|] eqn:Hid;
    [|by unfold Update; rewrite Hid].
  rewrite (Update_found _ _ _ _ Hid). cbn [snd].
  set (w1 := {| manager := manager w |}).
  destruct (profileChanged_frame session w1) as (Ho & Hcfg & Ht & Hse & _ & Ha).
  pose proof (deref_setProfile w session profile) as Hd. simpl in Hd.
  assert (Hd' : ∀ l, deref (profileChanged session w1) l =
                     deref (store session (setProfile profile (deref w session)) w) l).
  { intros l. unfold deref. by rewrite Ho. }
  destruct Hv as [Hv1 Hv2]. destruct Hc as [Hc1 Hc2].
  unfold inv, valid, consistent, service. rewrite Ho, Hcfg, Ht, Hse, Ha.
  change (manager w1) with (manager w).
  change (objects w1)
    with (<[session := setProfile profile (deref w session)]> (objects w)).
  split; [|split].
  - split; intros ? ?; rewrite length_insert; eauto.
  - split.
    + intros token id' Hl. destruct (Hc1 _ _ Hl) as (session' & ? & ?).
      exists session'. split; [done|]. rewrite Hd'.
      by etrans; [apply (Hd session')|].
    + intros id' session' Hl.
      specialize (Hc2 _ _ Hl). destruct (Hd session') as (Htk & _).
      by rewrite Hd', Htk.
  - unfold service in Hs.
    destruct (apiSession (manager w)) as [api|]; [|done].
    destruct (Hd api) as (Htk & Hi & _). by rewrite Hd', Htk, Hi.
Qed.

Lemma Delete_found id session w :
  sessions (manager w) !! id = Some session →
  ∃ w', Delete id w = (None, w') ∧
    objects w' = objects w ∧
    config (manager w') = config (manager w) ∧
    tokens (manager w') = delete (session_token (deref w session)) (tokens (manager w)) ∧
    sessions (manager w') = delete id (sessions (manager w)) ∧
    host (manager w') = host (manager w) ∧
    cursors (manager w') = cursors (manager w) ∧
    apiSession (manager w') = apiSession (manager w).
Proof.
  intros Hid. unfold Delete. rewrite Hid. eexists. split; [done|].
  repeat match goal with |- context [if ?b then _ else _] => destruct b end;
    done.
Qed.

Lemma inv_Delete id w : inv w → inv (Delete id w).2.
Proof.
  intros (Hv & Hc & Hs).
  destruct (sessions (manager w) !! id) as [session|] eqn:Hid;
    [|by unfold Delete; rewrite Hid].
  destruct (Delete_found _ _ _ Hid)
    as (w' & -> & Ho & Hcfg & Ht & Hse & _ & _ & Hapi).
  simpl. destruct Hv as [Hv1 Hv2]. destruct Hc as [Hc1 Hc2].
  assert (Hd : ∀ l, deref w' l = deref w l) by (intros; unfold deref; by rewrite Ho).
  split; [|split].
  - split; rewrite Ho, ?Hse, ?Hapi; [|done].
    intros id' session'. rewrite lookup_delete. case_decide; [done|]. eauto.
  - split; rewrite Ht, Hse.
    + intros token id'. rewrite lookup_delete. case_decide as Hne; [done|].
      intros Hl. destruct (Hc1 _ _ Hl) as (session' & Hs' & Htk).
      exists session'. rewrite Hd. split; [|done].
      rewrite lookup_delete_ne; [done|]. intros <-.
      rewrite Hid in Hs'. congruence.
    + intros id' session'. rewrite lookup_delete. case_decide as Hne; [done|].
      intros Hl. rewrite Hd. rewrite lookup_delete_ne; [by apply Hc2|].
      intros Heq. pose proof (Hc2 _ _ Hl) as H1. pose proof (Hc2 _ _ Hid) as H2.
      rewrite Heq in H2. congruence.
  - unfold service in *. rewrite Hapi, Hcfg, Hse.
    destruct (apiSession (manager w)) as [api|]; [|done].
    rewrite Hd. destruct Hs as (? & ? & ? & Hnot). repeat split; try done.
    intros id'. rewrite lookup_delete. case_decide; [done|]. apply Hnot.
Qed.

Lemma inv_exec c w : inv w → inv (exec c w).
Proof.
  destruct c; simpl;
    auto using inv_Create, inv_Update, inv_Delete.
Qed.

Lemma inv_run calls config : inv (run calls (New config)).
Proof.
  induction calls as [|c calls IH] using rev_ind.
  - apply inv_New.
  - rewrite run_snoc. by apply inv_exec.
Qed.

(** Every location the registry holds was allocated. *)
Lemma reachable_valid w : reachable w → valid w.
Proof. intros (config & calls & ->). apply inv_run. Qed.

(** *** Token map and session map *)

(** C1: after every sequence of calls on a new registry (Create and Delete,
    and the other mutators as well), every token of the token map resolves to
    the id of a registered session carrying that token, and the token of every
    registered session resolves to its id; a Delete of a registered id
    succeeds, removes the session entry and the entry of its token, leaves no
    token that resolves to the id, and keeps the two maps consistent. *)
Theorem registry_maps_consistent config calls :
  let w := run calls (New config) in
  consistent w ∧
  ∀ id session, sessions (manager w) !! id = Some session →
    let w' := (Delete id w).2 in
    (Delete id w).1 = None ∧
    sessions (manager w') !! id = None ∧
    tokens (manager w') !! session_token (deref w session) = None ∧
    (∀ token, tokens (manager w') !! token ≠ Some id) ∧
    consistent w'.
Proof.
  intros w. pose proof (inv_run calls config) as Hinv. fold w in Hinv.
  split; [apply Hinv|]. intros id session Hid w'.
  pose proof (inv_Delete id w Hinv) as (_ & Hc' & _). fold w' in Hc'.
  destruct (Delete_found _ _ _ Hid) as (w1 & Heq & _ & _ & Ht & Hs & _).
  assert (w' = w1) as -> by (unfold w'; by rewrite Heq).
  rewrite Heq. simpl. rewrite Ht, Hs.
  assert (Hgone : delete id (sessions (manager w)) !! id = None)
    by apply lookup_delete_eq.
  repeat split; [done|apply lookup_delete_eq| |apply Hc'|apply Hc'].
  intros token Hl. rewrite <- Ht in Hl.
  destruct Hc' as [Hc1 _]. destruct (Hc1 _ _ Hl) as (session' & Hl' & _).
  rewrite Hs in Hl'. congruence.
Qed.

Lemma registry_maps_consistent_witness :
  sessions (manager oneSession) !! "u1" = Some 1 ∧
  (Delete "u1" oneSession).1 = None ∧
  sessions (manager (Delete "u1" oneSession).2) !! "u1" = None ∧
  tokens (manager (Delete "u1" oneSession).2) !! "token-u1" = None.
Proof.
  assert (H : sessions (manager oneSession) !! "u1" = Some 1)
    by (vm_compute; reflexivity).
  split; [exact H|].
  destruct (registry_maps_consistent sampleConfig
              [CallCreate ("token-u1", None) "u1" hostProfile]) as [_ Hd].
  destruct (Hd "u1" 1 H) as (H1 & H2 & H3 & _).
  split; [exact H1|]. split; [exact H2|exact H3].
Defined.

(** *** Failed mutations *)

(** C2 (as amended): a Create with an already-registered id fails, with
    AlreadyExists when the token generator returned a token and with the
    generator's error when it returned one; an Update or a Delete with an
    unknown id fails with NotFound, in every registry, the empty one
    included; in each case the session map, the token map, the host slot, the
    cursor map and the objects are unchanged and no effect, hence no event,
    is added. *)
Theorem failed_mutations_are_noops uid id profile w :
  (is_Some (sessions (manager w) !! id) →
     Create uid id profile w =
       ((None, EmptyString, Some (default ErrSessionAlreadyExists uid.2)), w)) ∧
  (sessions (manager w) !! id = None →
     Update id profile w = (Some ErrSessionNotFound, w) ∧
     Delete id w = (Some ErrSessionNotFound, w)).
Proof.
  split.
  - intros [session Hid]. unfold Create. rewrite Hid.
    by destruct uid as [token [err|]].
  - intros Hid. unfold Update, Delete. by rewrite Hid.
Qed.

Lemma failed_mutations_are_noops_witness :
  Create ("token-2", None) "u1" guestProfile oneSession =
    ((None, EmptyString, Some ErrSessionAlreadyExists), oneSession) ∧
  Update "u2" guestProfile oneSession = (Some ErrSessionNotFound, oneSession) ∧
  Delete "u2" oneSession = (Some ErrSessionNotFound, oneSession) ∧
  Update "u1" guestProfile (New sampleConfig) =
    (Some ErrSessionNotFound, New sampleConfig) ∧
  Delete "u1" (New sampleConfig) = (Some ErrSessionNotFound, New sampleConfig).
Proof.
  destruct (failed_mutations_are_noops ("token-2", None) "u1" guestProfile
              oneSession) as [Hc _].
  destruct (failed_mutations_are_noops ("token-2", None) "u2" guestProfile
              oneSession) as [_ Hu].
  destruct (failed_mutations_are_noops ("token-2", None) "u1" guestProfile
              (New sampleConfig)) as [_ He].
  split; [apply Hc; exists 1; vm_compute; reflexivity|].
  destruct (Hu ltac:(vm_compute; reflexivity)) as [Hu1 Hu2].
  destruct (He ltac:(vm_compute; reflexivity)) as [He1 He2].
  repeat split; assumption.
Defined.

(** C2 does not hold as written: when the token generator fails, a Create
    with an already-registered id returns the generator's error, not
    AlreadyExists. *)
Lemma duplicate_create_generator_error :
  ¬ duplicate_create_fails_already_exists
      (EmptyString, Some (ErrExternal "entropy source failed")) "u1" guestProfile
      oneSession.
Proof.
  unfold duplicate_create_fails_already_exists. intros H.
  assert (Hreg : is_Some (sessions (manager oneSession) !! "u1"))
    by (exists 1; vm_compute; reflexivity).
  specialize (H Hreg). unfold Create in H. discriminate H.
Qed.

(** *** The host slot *)

Lemma Delete_host id w : GetHost (Delete id w).2 = GetHost w.
Proof.
  unfold GetHost.
  destruct (sessions (manager w) !! id) as [session|] eqn:Hid.
  - destruct (Delete_found _ _ _ Hid) as (w' & -> & _ & _ & _ & _ & Hh & _).
    done.
  - unfold Delete. by rewrite Hid.
Qed.

(** C5: Delete leaves the host slot as it is.  When the host is the session
    that is deleted, the Delete succeeds, the session is no longer found by
    its id, and GetHost still returns it; after a ClearHost GetHost returns
    none, and after a SetHost the session that was set.  (What the listeners
    of the "deleted" event and the peers' teardown do is outside the
    registry: here they are effects and nothing else.) *)
Theorem delete_keeps_host w id session :
  sessions (manager w) !! id = Some session →
  GetHost w = Some session →
  let w' := (Delete id w).2 in
  (Delete id w).1 = None ∧
  Get id w' = (None, false) ∧
  GetHost w' = Some session ∧
  GetHost (ClearHost w') = None ∧
  ∀ host, GetHost (SetHost host w') = host.
Proof.
  intros Hid Hhost w'.
  pose proof (Delete_host id w) as Hh. fold w' in Hh.
  destruct (Delete_found _ _ _ Hid) as (w1 & Heq & _ & _ & _ & Hs & _).
  assert (w' = w1) as -> by (unfold w'; by rewrite Heq).
  rewrite Heq. simpl. split; [done|]. split.
  { unfold Get. by rewrite Hs, lookup_delete_eq. }
  split; [by rewrite Hh|]. done.
Qed.

Lemma delete_keeps_host_witness :
  let w := SetHost (Some 1) oneSession in
  GetHost w = Some 1 ∧
  GetHost (Delete "u1" w).2 = Some 1 ∧
  GetHost (ClearHost (Delete "u1" w).2) = None.
Proof.
  intros w.
  assert (H1 : sessions (manager w) !! "u1" = Some 1) by (vm_compute; reflexivity).
  assert (H2 : GetHost w = Some 1) by reflexivity.
  destruct (delete_keeps_host w "u1" 1 H1 H2) as (_ & _ & H3 & H4 & _).
  split; [exact H2|]. split; [exact H3|exact H4].
Defined.

(** *** The cursor ledger *)

Lemma exec_cursors c w :
  cursors (manager (exec c w)) =
  match c with
  | CallSetCursor cursor session =>
    <[session := default [] (cursors (manager w) !! session) ++ [cursor]]>
      (cursors (manager w))
  | CallPopCursors => ∅
  | _ => cursors (manager w)
  end.
Proof.
  destruct c as [[token [err|]] id profile|id profile|id| | |cursor session|];
    simpl; try done.
  - unfold Create.
    by repeat (match goal with |- context [match ?o with _ => _ end] =>
                 destruct o end).
  - destruct (sessions (manager w) !! id) as [session|] eqn:Hid;
      [|by unfold Update; rewrite Hid].
    rewrite (Update_found _ _ _ _ Hid). cbn [snd].
    by destruct (profileChanged_frame session
                   {| manager := manager w;
                      objects := <[session := setProfile profile (deref w session)]>
                                   (objects w);
                      effects := effects w ++ [Emit "profile_changed" (Some session);
                                               ProfileChanged session] |})
      as (_ & ? & _ & _ & ? & _).
  - destruct (sessions (manager w) !! id) as [session|] eqn:Hid.
    + by destruct (Delete_found _ _ _ Hid) as (w' & -> & _ & _ & _ & _ & _ & ? & _).
    + unfold Delete. by rewrite Hid.
Qed.

Lemma ledgerEntry_snoc cs cursor :
  ledgerEntry (cs ++ [cursor]) = Some (default [] (ledgerEntry cs) ++ [cursor]).
Proof. by destruct cs. Qed.

Lemma pending_snoc calls c (session : Session) :
  pending (calls ++ [c]) session =
  match c with
  | CallSetCursor cursor session' =>
    if decide (session' = session) then pending calls session ++ [cursor]
    else pending calls session
  | CallPopCursors => []
  | _ => pending calls session
  end.
Proof. unfold pending. by rewrite foldl_app. Qed.

Lemma ledger_tracks_pending calls w (session : Session) :
  cursors (manager w) = ∅ →
  cursors (manager (run calls w)) !! session = ledgerEntry (pending calls session).
Proof.
  intros Hw. induction calls as [|c calls IH] using rev_ind.
  - simpl. by rewrite Hw.
  - rewrite run_snoc, exec_cursors, pending_snoc.
    destruct c; try done.
    rewrite lookup_insert. case_decide as Heq.
    + subst. by rewrite IH, ledgerEntry_snoc.
    + done.
Qed.

Lemma New_cursors config : cursors (manager (New config)) = ∅.
Proof. unfold New. by case_decide. Qed.

(** C4: after any sequence of calls on a new registry, PopCursors returns, for
    every session, the cursors passed to SetCursor for it since the previous
    PopCursors (or since the start), in that order, and no entry for a session
    without any; the ledger is empty right after; and a SetCursor always goes
    through, leaving for its session what was pending followed by the new
    cursor. *)
Theorem pop_cursors_returns_pending config calls :
  let w := run calls (New config) in
  (∀ session : Session,
     (PopCursors w).1 !! session = ledgerEntry (pending calls session)) ∧
  cursors (manager (PopCursors w).2) = ∅ ∧
  (∀ session : Session, pending (calls ++ [CallPopCursors]) session = []) ∧
  ∀ cursor (session : Session),
    cursors (manager (SetCursor cursor session w)) !! session =
    Some (pending calls session ++ [cursor]).
Proof.
  intros w. split; [|split; [done|split]].
  - intros session. apply ledger_tracks_pending, New_cursors.
  - intros session. by rewrite pending_snoc.
  - intros cursor session.
    change (SetCursor cursor session w) with (exec (CallSetCursor cursor session) w).
    rewrite exec_cursors, lookup_insert_eq.
    unfold w. rewrite ledger_tracks_pending by apply New_cursors.
    by destruct (pending calls session).
Qed.

(** *** Broadcasts *)

Lemma appendEffects_nil w : appendEffects [] w = w.
Proof. destruct w. unfold appendEffects. simpl. by rewrite app_nil_r. Qed.

Lemma appendEffects_app es es' w :
  appendEffects es' (appendEffects es w) = appendEffects (es ++ es') w.
Proof. unfold appendEffects. simpl. by rewrite app_assoc. Qed.

(** A loop whose body sends to the recipients and skips the others. *)
Lemma broadcast_loop (keep : SessionCtx → bool) event payload exclude
    (body : World → loc → World) :
  (∀ w session,
     body w session =
     appendEffects
       (if receives keep exclude (objects w) session
        then [Send session event payload] else []) w) →
  ∀ snapshot w,
    foldl body w snapshot =
    appendEffects
      (sends event payload
         (filter (fun session => receives keep exclude (objects w) session = true)
                 snapshot)) w.
Proof.
  intros Hbody snapshot. induction snapshot as [|session snapshot IH]; intros w.
  - simpl. by rewrite appendEffects_nil.
  - simpl. rewrite IH, Hbody, appendEffects_app. simpl.
    rewrite filter_cons.
    destruct (receives keep exclude (objects w) session) eqn:Hr.
    + by rewrite decide_True.
    + by rewrite decide_False.
Qed.

Lemma sendUnlessExcluded_spec event payload exclude session w :
  sendUnlessExcluded event payload exclude session w =
  appendEffects
    (if excluded exclude (deref w session) then []
     else [Send session event payload]) w.
Proof.
  unfold sendUnlessExcluded, excluded, ArrayIn, ID.
  destruct exclude as [exclude|]; [|done].
  destruct (bool_decide _); [by rewrite appendEffects_nil|done].
Qed.

Lemma elem_of_List w session : session ∈ List w ↔ registered w session.
Proof.
  unfold List, registered. rewrite list_elem_of_fmap. split.
  - intros ([id l] & -> & Hin). exists id. by apply elem_of_map_to_list in Hin.
  - intros (id & Hid). exists (id, session). split; [done|].
    by apply elem_of_map_to_list.
Qed.

Lemma delivers_intro (keep : SessionCtx → bool) event payload exclude snapshot w :
  ListResult w snapshot →
  delivers keep event payload exclude snapshot w
    (appendEffects
       (sends event payload
          (filter (fun session => receives keep exclude (objects w) session = true)
                  snapshot)) w).
Proof.
  intros Hsnap. split; [done|]. split; [done|].
  eexists. split; [done|]. split; [done|]. split.
  - unfold sends. by rewrite Hsnap.
  - intros session. unfold sends. rewrite list_elem_of_fmap. split.
    + intros (l & [= <-] & Hin). apply list_elem_of_filter in Hin as [Hr Hin].
      rewrite Hsnap, elem_of_List in Hin. split; [done|].
      unfold receives in Hr. apply andb_prop in Hr as [Hk He].
      split; [done|]. by apply negb_true_iff in He.
    + intros (Hreg & Hk & He). exists session. split; [done|].
      apply list_elem_of_filter. split.
      * unfold receives. fold (deref w session). by rewrite Hk, He.
      * by rewrite Hsnap, elem_of_List.
Qed.

Ltac broadcast_body :=
  let w := fresh "w" in
  let session := fresh "session" in
  intros w session; rewrite ?sendUnlessExcluded_spec;
  unfold receives, connected, connectedAdmin, connectedInactiveCursors;
  fold (deref w session);
  repeat match goal with
         | |- context [IsConnected ?s] => destruct (IsConnected s); simpl
         | |- context [IsAdmin ?p] => destruct (IsAdmin p); simpl
         | |- context [CanSeeInactiveCursors ?p] =>
             destruct (CanSeeInactiveCursors p); simpl
         | |- context [excluded ?e ?s] => destruct (excluded e s); simpl
         end;
  by rewrite ?appendEffects_nil.

Lemma Broadcast_spec snapshot event payload exclude w :
  Broadcast snapshot event payload exclude w =
  appendEffects
    (sends event payload
       (filter (fun session => receives connected exclude (objects w) session = true)
               snapshot)) w.
Proof. apply broadcast_loop. broadcast_body. Qed.

Lemma AdminBroadcast_spec snapshot event payload exclude w :
  AdminBroadcast snapshot event payload exclude w =
  appendEffects
    (sends event payload
       (filter (fun session =>
                  receives connectedAdmin exclude (objects w) session = true)
               snapshot)) w.
Proof. apply broadcast_loop. broadcast_body. Qed.

Lemma InactiveCursorsBroadcast_spec snapshot event payload exclude w :
  InactiveCursorsBroadcast snapshot event payload exclude w =
  appendEffects
    (sends event payload
       (filter (fun session =>
                  receives connectedInactiveCursors exclude (objects w) session = true)
               snapshot)) w.
Proof. apply broadcast_loop. broadcast_body. Qed.

(** C3: for every registry, whatever the sessions' handles and whatever the
    exclusion list (none, or a list of ids), and for every order in which
    List may return the sessions: Broadcast sends the payload to exactly the
    registered sessions that are connected and whose id is not excluded,
    AdminBroadcast to those of them that are admins, InactiveCursorsBroadcast
    to those of them that may see inactive cursors; nothing else is done, so
    no excluded and no disconnected session is sent anything. *)
Theorem broadcast_recipients w snapshot event payload exclude :
  ListResult w snapshot →
  delivers connected event payload exclude snapshot w
    (Broadcast snapshot event payload exclude w) ∧
  delivers connectedAdmin event payload exclude snapshot w
    (AdminBroadcast snapshot event payload exclude w) ∧
  delivers connectedInactiveCursors event payload exclude snapshot w
    (InactiveCursorsBroadcast snapshot event payload exclude w).
Proof.
  intros Hsnap.
  rewrite Broadcast_spec, AdminBroadcast_spec, InactiveCursorsBroadcast_spec.
  auto using delivers_intro.
Qed.

Lemma broadcast_recipients_witness :
  let w := adminAndGuest in
  delivers connected "x" "payload" (Some ["guest"]) (List w) w
    (Broadcast (List w) "x" "payload" (Some ["guest"]) w) ∧
  delivers connectedAdmin "x" "payload" (Some ["guest"]) (List w) w
    (AdminBroadcast (List w) "x" "payload" (Some ["guest"]) w) ∧
  delivers connectedInactiveCursors "x" "payload" (Some ["guest"]) (List w) w
    (InactiveCursorsBroadcast (List w) "x" "payload" (Some ["guest"]) w).
Proof.
  intros w.
  apply (broadcast_recipients w (List w) "x" "payload" (Some ["guest"])).
  unfold ListResult. reflexivity.
Defined.

(** Scenario B: with "admin" and "guest" connected, an AdminBroadcast without
    exclusion sends to "admin" only, and a Broadcast to both. *)
Example admin_broadcast_scenario :
  let w := adminAndGuest in
  Get "admin" w = (Some 1, true) ∧ Get "guest" w = (Some 2, true) ∧
  effects (AdminBroadcast (List w) "x" "payload" None w) =
    effects w ++ [Send 1 "x" "payload"] ∧
  effects (Broadcast [2; 1] "x" "payload" None w) =
    effects w ++ [Send 2 "x" "payload"; Send 1 "x" "payload"] ∧
  effects (Broadcast [2; 1] "x" "payload" (Some ["guest"]) w) =
    effects w ++ [Send 1 "x" "payload"].
Proof. vm_compute. done. Qed.

(** *** Lookups *)

Lemma exec_config c w : config (manager (exec c w)) = config (manager w).
Proof.
  destruct c as [[token [err|]] id profile|id profile|id| | |cursor session|];
    simpl; try done.
  - unfold Create.
    by repeat (match goal with |- context [match ?o with _ => _ end] =>
                 destruct o end).
  - destruct (sessions (manager w) !! id) as [session|] eqn:Hid;
      [|by unfold Update; rewrite Hid].
    rewrite (Update_found _ _ _ _ Hid). cbn [snd].
    by destruct (profileChanged_frame session
                   {| manager := manager w;
                      objects := <[session := setProfile profile (deref w session)]>
                                   (objects w);
                      effects := effects w ++ [Emit "profile_changed" (Some session);
                                               ProfileChanged session] |})
      as (_ & ? & _ & _ & ? & _).
  - destruct (sessions (manager w) !! id) as [session|] eqn:Hid.
    + by destruct (Delete_found _ _ _ Hid) as (w' & -> & _ & ? & _).
    + unfold Delete. by rewrite Hid.
Qed.

Lemma run_config calls cfg : config (manager (run calls (New cfg))) = cfg.
Proof.
  induction calls as [|c calls IH] using rev_ind.
  - unfold New. by case_decide.
  - by rewrite run_snoc, exec_config.
Qed.

(** C9 (as amended): after any sequence of calls on a new registry, Get and
    GetByToken return a found or a not-found result: Get finds exactly the
    registered ids; GetByToken finds, for a token of the token map, the
    registered session that carries it; for the configured service token,
    provided it is not a key of the token map, it finds the service session,
    which has the id "API" and is not registered; and for a token that is
    neither in the token map nor the configured service token it finds
    nothing. *)
Theorem lookups_resolve config calls :
  let w := run calls (New config) in
  (∀ id, Get id w =
     match sessions (manager w) !! id with
     | Some session => (Some session, true)
     | None => (None, false)
     end) ∧
  (∀ token id, tokens (manager w) !! token = Some id →
     ∃ session, sessions (manager w) !! id = Some session ∧
       session_token (deref w session) = token ∧
       GetByToken token w = (Some session, true)) ∧
  (APIToken config ≠ EmptyString → tokens (manager w) !! APIToken config = None →
     ∃ api, apiSession (manager w) = Some api ∧
       session_id (deref w api) = "API" ∧ ¬ registered w api ∧
       GetByToken (APIToken config) w = (Some api, true)) ∧
  (∀ token, tokens (manager w) !! token = None →
     token ≠ APIToken config ∨ APIToken config = EmptyString →
     GetByToken token w = (None, false)).
Proof.
  intros w. pose proof (inv_run calls config) as (Hv & [Hc1 Hc2] & Hs).
  pose proof (run_config calls config) as Hcfg. fold w in Hv, Hc1, Hc2, Hs, Hcfg.
  unfold service in Hs. rewrite Hcfg in Hs.
  split; [done|]. split; [|split].
  - intros token id Hl. destruct (Hc1 _ _ Hl) as (session & Hid & Htk).
    exists session. unfold GetByToken, Get. by rewrite Hl, Hid.
  - intros Hne Hl. destruct (apiSession (manager w)) as [api|] eqn:Hapi; [|done].
    destruct Hs as (_ & Htk & Hid & Hnot). exists api.
    split; [done|]. split; [done|]. split.
    + intros [id Hreg]. by apply (Hnot id).
    + unfold GetByToken. rewrite Hl, Hapi. by rewrite decide_True.
  - intros token Hl Hother. unfold GetByToken. rewrite Hl.
    destruct (apiSession (manager w)) as [api|] eqn:Hapi; [|done].
    destruct Hs as (Hne & Htk & _). rewrite decide_False; [done|].
    rewrite Htk. intros <-. by destruct Hother.
Qed.

Lemma lookups_resolve_witness :
  GetByToken "token-u1" oneSession = (Some 1, true) ∧
  GetByToken "service-token" oneSession = (Some 0, true) ∧
  GetByToken "no-such-token" oneSession = (None, false).
Proof.
  destruct (lookups_resolve sampleConfig
              [CallCreate ("token-u1", None) "u1" hostProfile])
    as (_ & Hfound & Hsvc & Hnone).
  split; [|split].
  - destruct (Hfound "token-u1" "u1" ltac:(vm_compute; reflexivity))
      as (session & Hs & _ & Hg).
    assert (session = 1) as -> by (vm_compute in Hs; congruence).
    exact Hg.
  - destruct (Hsvc ltac:(discriminate) ltac:(vm_compute; reflexivity))
      as (api & Ha & _ & _ & Hg).
    assert (api = 0) as -> by (vm_compute in Ha; congruence).
    exact Hg.
  - apply (Hnone "no-such-token"); [vm_compute; reflexivity|].
    left. discriminate.
Defined.

(** C9 does not hold as written: once a session was created with the service
    token as its token, GetByToken with the service token returns that
    session, not the service session. *)
Lemma service_token_shadowed :
  ¬ service_token_resolves_service_session sampleConfig
      [CallCreate ("service-token", None) "u1" hostProfile].
Proof.
  unfold service_token_resolves_service_session. intros H.
  specialize (H ltac:(discriminate)). vm_compute in H. discriminate H.
Qed.

(** C10: Create compares the generated token with the keys of the token map
    only.  With a service session whose token is not a key of the token map,
    a Create of a fresh id for which the generator returned the service token
    succeeds; afterwards the service session still carries that token, yet
    GetByToken with it returns the session just registered, which is not the
    service session. *)
Theorem create_shadows_service_session w api id profile :
  apiSession (manager w) = Some api →
  api < length (objects w) →
  sessions (manager w) !! id = None →
  tokens (manager w) !! session_token (deref w api) = None →
  let token := session_token (deref w api) in
  let session := length (objects w) in
  let w' := (Create (token, None) id profile w).2 in
  (Create (token, None) id profile w).1 = (Some session, token, None) ∧
  apiSession (manager w') = Some api ∧
  session_token (deref w' api) = token ∧
  Get id w' = (Some session, true) ∧
  GetByToken token w' = (Some session, true) ∧
  session ≠ api.
Proof.
  intros Hapi Hlt Hid Htok token session w'.
  subst token session w'. unfold Create. rewrite Hid, Htok. simpl.
  split; [done|]. split; [done|]. split.
  { unfold deref. simpl. by rewrite lookup_app_l. }
  split.
  { unfold Get. simpl. by rewrite lookup_insert_eq. }
  split; [|lia].
  unfold GetByToken, Get. simpl. by rewrite !lookup_insert_eq.
Qed.

Lemma create_shadows_service_session_witness :
  let w := New sampleConfig in
  (Create ("service-token", None) "u1" hostProfile w).1 =
    (Some 1, "service-token", None) ∧
  GetByToken "service-token" w = (Some 0, true) ∧
  GetByToken "service-token" (Create ("service-token", None) "u1" hostProfile w).2 =
    (Some 1, true).
Proof.
  intros w.
  destruct (create_shadows_service_session w 0 "u1" hostProfile)
    as (H1 & _ & _ & _ & H2 & _);
    [reflexivity|simpl; lia|reflexivity|reflexivity|].
  split; [exact H1|]. split; [reflexivity|exact H2].
Defined.

End RegistryProofs.

(** ** The peer: proofs *)

Module PeerProofs.

Import WebRTCPeer PeerSpec.

Section Engine.

Context {PC : Type} `{!PeerConnection PC}.

Implicit Types (st : PeerWorld PC) (c : PC).

Lemma no_connection_CreateOffer ICERestart st :
  connection (peer st) = None →
  CreateOffer ICERestart st =
  Returns ((None, Some ErrWebRTCConnectionNotFound), st).
Proof. intros H. unfold CreateOffer. by rewrite H. Qed.

Lemma no_connection_CreateAnswer st :
  connection (peer st) = None →
  CreateAnswer st = Returns ((None, Some ErrWebRTCConnectionNotFound), st).
Proof. intros H. unfold CreateAnswer. by rewrite H. Qed.

(** C6: on a peer whose connection is nil, CreateOffer, CreateAnswer,
    SetOffer, SetAnswer, SetCandidate and SetVideoID return
    ErrWebRTCConnectionNotFound and leave the peer and its effects as they
    were: no call to a connection, no log line, no call of the video
    callback. *)
Theorem negotiation_needs_connection st ICERestart sdp candidate videoID :
  connection (peer st) = None →
  CreateOffer ICERestart st =
    Returns ((None, Some ErrWebRTCConnectionNotFound), st) ∧
  CreateAnswer st = Returns ((None, Some ErrWebRTCConnectionNotFound), st) ∧
  SetOffer sdp st = (Some ErrWebRTCConnectionNotFound, st) ∧
  SetAnswer sdp st = (Some ErrWebRTCConnectionNotFound, st) ∧
  SetCandidate candidate st = (Some ErrWebRTCConnectionNotFound, st) ∧
  SetVideoID videoID st = (Some ErrWebRTCConnectionNotFound, st).
Proof.
  intros H.
  unfold CreateOffer, CreateAnswer, SetOffer, SetAnswer, SetCandidate, SetVideoID.
  by rewrite H.
Qed.

Lemma Destroy_connection st : connection (peer (Destroy st)) = None.
Proof.
  unfold Destroy. destruct (connection (peer st)) as [c|] eqn:Hc; [|done].
  by destruct (pcClose c).
Qed.

Lemma Destroy_no_connection st : connection (peer st) = None → Destroy st = st.
Proof. intros H. unfold Destroy. by rewrite H. Qed.

Lemma closes_record e st :
  closes (record e st) =
  closes st + (if decide (ConnectionClose = e) then 1 else 0).
Proof.
  unfold closes, record. simpl. rewrite filter_app, length_app.
  rewrite filter_cons, filter_nil. by case_decide.
Qed.

Lemma Destroy_closes st :
  closes (Destroy st) =
  closes st + match connection (peer st) with Some _ => 1 | None => 0 end.
Proof.
  unfold Destroy. destruct (connection (peer st)) as [c|]; [|lia].
  destruct (pcClose c) as [err c'].
  change (closes (setConnection None ?s)) with (closes s).
  rewrite !closes_record. repeat case_decide; try done; lia.
Qed.

(** C7: Destroy returns no error.  After it the connection is nil; on a peer
    whose connection is nil it does nothing; a second Destroy in a row changes
    nothing, so the two together close the connection once if there was one
    and never otherwise; and after a Destroy every negotiation operation
    returns ErrWebRTCConnectionNotFound. *)
Theorem destroy_idempotent st :
  connection (peer (Destroy st)) = None ∧
  Destroy (setConnection None st) = setConnection None st ∧
  Destroy (Destroy st) = Destroy st ∧
  closes (Destroy (Destroy st)) =
    closes st + match connection (peer st) with Some _ => 1 | None => 0 end ∧
  (closes (Destroy (Destroy st)) ≤ S (closes st))%nat ∧
  ∀ ICERestart sdp candidate videoID,
    CreateOffer ICERestart (Destroy st) =
      Returns ((None, Some ErrWebRTCConnectionNotFound), Destroy st) ∧
    CreateAnswer (Destroy st) =
      Returns ((None, Some ErrWebRTCConnectionNotFound), Destroy st) ∧
    SetOffer sdp (Destroy st) = (Some ErrWebRTCConnectionNotFound, Destroy st) ∧
    SetAnswer sdp (Destroy st) = (Some ErrWebRTCConnectionNotFound, Destroy st) ∧
    SetCandidate candidate (Destroy st) =
      (Some ErrWebRTCConnectionNotFound, Destroy st) ∧
    SetVideoID videoID (Destroy st) =
      (Some ErrWebRTCConnectionNotFound, Destroy st).
Proof.
  pose proof (Destroy_connection st) as Hnil.
  assert (Htwice : Destroy (Destroy st) = Destroy st)
    by (by apply Destroy_no_connection).
  split; [done|]. split; [by apply Destroy_no_connection|].
  split; [done|]. rewrite Htwice, Destroy_closes.
  split; [done|]. split; [destruct (connection (peer st)); lia|].
  intros.
  unfold CreateOffer, CreateAnswer, SetOffer, SetAnswer, SetCandidate, SetVideoID.
  by rewrite Hnil.
Qed.

(** *** The local-description commit *)


End Engine.

(** *** The simulated connection *)

Lemma negotiation_needs_connection_witness :
  let st := simPeer None false in
  let candidate :=
    {| Candidate := "candidate:1 1 udp 1 192.0.2.1 9 typ host";
       SDPMid := Some "0"; SDPMLineIndex := Some 0%Z |} in
  CreateOffer true st =
    Returns ((None, Some ErrWebRTCConnectionNotFound), st) ∧
  CreateAnswer st = Returns ((None, Some ErrWebRTCConnectionNotFound), st) ∧
  SetOffer "v=0 offer" st = (Some ErrWebRTCConnectionNotFound, st) ∧
  SetAnswer "v=0 offer" st = (Some ErrWebRTCConnectionNotFound, st) ∧
  SetCandidate candidate st = (Some ErrWebRTCConnectionNotFound, st) ∧
  SetVideoID "hd" st = (Some ErrWebRTCConnectionNotFound, st).
Proof.
  intros st candidate.
  apply (negotiation_needs_connection st true "v=0 offer" candidate "hd").
  reflexivity.
Defined.



Example destroy_twice_closes_once :
  let st := simPeer (Some (simFresh true)) true in
  closes st = 0 ∧ closes (Destroy st) = 1 ∧ closes (Destroy (Destroy st)) = 1 ∧
  SetCandidate {| Candidate := EmptyString; SDPMid := None; SDPMLineIndex := None |}
    (Destroy st) = (Some ErrWebRTCConnectionNotFound, Destroy st).
Proof. by vm_compute. Qed.

End PeerProofs.

(** ** More on the registry: proofs *)

Module RegistryMore.

Import SessionManager RegistrySpec Events RegistryLaws RegistryProofs.

Implicit Types (w : World) (session : loc) (id token : string).

(** *** What each call adds and changes *)

Lemma Create_success token id profile w :
  sessions (manager w) !! id = None →
  tokens (manager w) !! token = None →
  Create (token, None) id profile w =
  ((Some (length (objects w)), token, None),
   {| manager :=
        {| config := config (manager w);
           tokens := <[token := id]> (tokens (manager w));
           sessions := <[id := length (objects w)]> (sessions (manager w));
           host := host (manager w); cursors := cursors (manager w);
           apiSession := apiSession (manager w) |};
      objects := objects w ++ [newSessionCtx id token profile];
      effects := effects w ++ [Emit "created" (Some (length (objects w)))] |}).
Proof. intros Hid Htok. unfold Create. by rewrite Hid, Htok. Qed.

Lemma Create_failure uid id profile w :
  (Create uid id profile w).1.2 ≠ None →
  (Create uid id profile w).2 = w ∧
  (Create uid id profile w).1.1 = (None, EmptyString).
Proof.
  unfold Create. destruct uid as [token [err|]]; [done|].
  destruct (sessions (manager w) !! id); [done|].
  by destruct (tokens (manager w) !! token).
Qed.

Lemma Update_valid id session profile w :
  sessions (manager w) !! id = Some session →
  session < length (objects w) →
  ∃ w', Update id profile w = (None, w') ∧
    objects w' = <[session := setProfile profile (deref w session)]> (objects w) ∧
    config (manager w') = config (manager w) ∧
    tokens (manager w') = tokens (manager w) ∧
    sessions (manager w') = sessions (manager w) ∧
    cursors (manager w') = cursors (manager w) ∧
    apiSession (manager w') = apiSession (manager w) ∧
    GetHost w' = (if losesHost w session profile then None else GetHost w) ∧
    effects w' =
      effects w ++
      [Emit "profile_changed" (Some session); ProfileChanged session] ++
      (if losesHost w session profile then [Emit "host_changed" None] else []).
Proof.
  intros Hid Hlt. rewrite (Update_found _ _ _ _ Hid). eexists. split; [done|].
  set (w1 := {| manager := manager w |}).
  destruct (profileChanged_frame session w1) as (Ho & Hcfg & Ht & Hs & Hc & Ha).
  destruct (profileChanged_change session w1) as [Hh He].
  assert (Hd : deref w1 session = setProfile profile (deref w session)).
  { unfold deref, w1. simpl. by rewrite list_lookup_insert_eq. }
  rewrite Hd in Hh, He.
  change (bool_decide (GetHost w1 = Some session) &&
          negb (CanHost (Profile (setProfile profile (deref w session)))))
    with (losesHost w session profile) in Hh, He.
  rewrite Ho, Hcfg, Ht, Hs, Hc, Ha, Hh, He.
  repeat split; try done. unfold w1. simpl. by rewrite <- app_assoc.
Qed.

Lemma Delete_effects id session w :
  sessions (manager w) !! id = Some session →
  effects (Delete id w).2 =
  effects w ++ teardown (deref w session) session ++
  [Emit "deleted" (Some session)].
Proof.
  intros Hid. unfold Delete. rewrite Hid. unfold teardown, deref. simpl.
  destruct (bool_decide (is_Some (websocketPeer _)));
    destruct (bool_decide (is_Some (webrtcPeer _))); simpl;
    by rewrite <- ?app_assoc.
Qed.

(** *** Create *)

(** X1: Create returns no error exactly when the generator returned a token
    without error, the id is not registered and the token is not a key of the
    token map.  Whenever it returns an error, it returns a nil session and an
    empty token and changes nothing; a fresh id with a token that is already
    a key gives the error "session token already exists". *)
Theorem create_outcome uid id profile w :
  ((Create uid id profile w).1.2 = None ↔
     uid.2 = None ∧ sessions (manager w) !! id = None ∧
     tokens (manager w) !! uid.1 = None) ∧
  ((Create uid id profile w).1.2 ≠ None →
     (Create uid id profile w).2 = w ∧
     (Create uid id profile w).1.1 = (None, EmptyString)) ∧
  (uid.2 = None → sessions (manager w) !! id = None →
     is_Some (tokens (manager w) !! uid.1) →
     (Create uid id profile w).1.2 =
     Some (ErrorsNew "session token already exists")).
Proof.
  split; [|split; [apply Create_failure|]].
  - unfold Create. destruct uid as [token [err|]]; simpl.
    { split; [done|]. by intros (? & _). }
    destruct (sessions (manager w) !! id).
    { split; [done|]. by intros (_ & ? & _). }
    destruct (tokens (manager w) !! token); [|done].
    split; [done|]. by intros (_ & _ & ?).
  - unfold Create. destruct uid as [token [err|]]; simpl; [done|].
    intros _ -> [x ->]. done.
Qed.

Lemma create_outcome_witness :
  (Create ("token-u1", None) "u2" guestProfile oneSession).1.2 =
    Some (ErrorsNew "session token already exists") ∧
  (Create ("token-u1", None) "u2" guestProfile oneSession).2 = oneSession.
Proof.
  destruct (create_outcome ("token-u1", None) "u2" guestProfile oneSession)
    as (_ & Hfail & Hcoll).
  assert (H : (Create ("token-u1", None) "u2" guestProfile oneSession).1.2 =
              Some (ErrorsNew "session token already exists")).
  { apply Hcoll; [reflexivity|vm_compute; reflexivity|].
    exists "u1". vm_compute. reflexivity. }
  split; [exact H|]. apply Hfail. rewrite H. discriminate.
Defined.

(** X2: after any sequence of calls, a Create of a fresh id with a fresh
    token returns a session that Get finds under the id and GetByToken under
    the token; the session has the id, the token and the profile given and is
    neither connected nor watching; every other id and every other token
    resolve as before, and the objects that existed are untouched. *)
Theorem create_then_lookup cfg calls token id profile :
  let w := run calls (New cfg) in
  sessions (manager w) !! id = None →
  tokens (manager w) !! token = None →
  let w' := (Create (token, None) id profile w).2 in
  ∃ session,
    (Create (token, None) id profile w).1 = (Some session, token, None) ∧
    Get id w' = (Some session, true) ∧
    GetByToken token w' = (Some session, true) ∧
    deref w' session = newSessionCtx id token profile ∧
    State (deref w' session) = {| IsConnected := false; IsWatching := false |} ∧
    (∀ id', id' ≠ id → Get id' w' = Get id' w) ∧
    (∀ token', token' ≠ token → GetByToken token' w' = GetByToken token' w) ∧
    (∀ session', session' < length (objects w) →
       deref w' session' = deref w session').
Proof.
  intros w Hid Htok w'. pose proof (inv_run calls cfg) as ([Hv1 Hv2] & [Hc1 _] & _).
  fold w in Hv1, Hv2, Hc1.
  subst w'. rewrite (Create_success _ _ _ _ Hid Htok). simpl.
  assert (Hold : ∀ session', session' < length (objects w) →
    default zeroSessionCtx ((objects w ++ [newSessionCtx id token profile]) !! session')
    = deref w session').
  { intros session' Hlt. unfold deref. by rewrite lookup_app_l. }
  exists (length (objects w)). unfold GetByToken, Get, deref. simpl.
  rewrite !lookup_insert_eq.
  rewrite lookup_app_r, Nat.sub_diag by done. simpl.
  do 5 (split; [done|]). split; [|split; [|done]].
  - intros id' Hne. by rewrite lookup_insert_ne.
  - intros token' Hne. rewrite lookup_insert_ne by done.
    destruct (tokens (manager w) !! token') as [id'|] eqn:Hl.
    + destruct (Hc1 _ _ Hl) as (session' & Hs & _).
      rewrite lookup_insert_ne; [done|]. intros <-. congruence.
    + destruct (apiSession (manager w)) as [api|] eqn:Hapi; [|done].
      fold (deref w api). by rewrite Hold by (by apply Hv2).
Qed.

Lemma create_then_lookup_witness :
  let w' := (Create ("token-u2", None) "u2" guestProfile oneSession).2 in
  Get "u2" w' = (Some 2, true) ∧ GetByToken "token-u2" w' = (Some 2, true) ∧
  Get "u1" w' = Get "u1" oneSession.
Proof.
  intros w'.
  destruct (create_then_lookup sampleConfig
              [CallCreate ("token-u1", None) "u1" hostProfile]
              "token-u2" "u2" guestProfile)
    as (session & Hr & Hg & Ht & _ & _ & Hother & _);
    [vm_compute; reflexivity|vm_compute; reflexivity|].
  assert (session = 2) as -> by (vm_compute in Hr; congruence).
  split; [exact Hg|]. split; [exact Ht|]. by apply Hother.
Defined.

(** X3: a successful Create followed by a Delete of the same id gives back
    the registry as it was: the same token map, session map, host slot and
    cursor map; the Delete succeeds and the two calls add the created event
    and then the deleted event, nothing else. *)
Theorem create_then_delete token id profile w :
  sessions (manager w) !! id = None →
  tokens (manager w) !! token = None →
  let w1 := (Create (token, None) id profile w).2 in
  (Delete id w1).1 = None ∧
  manager (Delete id w1).2 = manager w ∧
  effects (Delete id w1).2 =
    effects w ++ [Emit "created" (Some (length (objects w)));
                  Emit "deleted" (Some (length (objects w)))].
Proof.
  intros Hid Htok w1. subst w1. rewrite (Create_success _ _ _ _ Hid Htok).
  cbn [snd]. set (w1 := {| manager := _ |}).
  assert (Hreg : sessions (manager w1) !! id = Some (length (objects w)))
    by apply lookup_insert_eq.
  assert (Hd : deref w1 (length (objects w)) = newSessionCtx id token profile).
  { unfold deref, w1. simpl. by rewrite lookup_app_r, Nat.sub_diag by done. }
  destruct (Delete_found _ _ _ Hreg)
    as (w2 & Heq & _ & Hcfg & Ht & Hs & Hh & Hcu & Hapi).
  pose proof (Delete_effects _ _ _ Hreg) as He.
  rewrite Heq in *. simpl in *. split; [done|]. split.
  - rewrite Hd in Ht. simpl in Ht.
    rewrite delete_insert_id in Ht by done.
    rewrite delete_insert_id in Hs by done.
    destruct (manager w2), (manager w). simpl in *. by subst.
  - rewrite He, Hd. unfold teardown. simpl. by rewrite <- app_assoc.
Qed.

Lemma create_then_delete_witness :
  let w1 := (Create ("token-u2", None) "u2" guestProfile oneSession).2 in
  (Delete "u2" w1).1 = None ∧ manager (Delete "u2" w1).2 = manager oneSession.
Proof.
  intros w1.
  destruct (create_then_delete "token-u2" "u2" guestProfile oneSession)
    as (H1 & H2 & _); [vm_compute; reflexivity|vm_compute; reflexivity|].
  split; [exact H1|exact H2].
Defined.

(** *** Update *)

(** X4: after any sequence of calls, an Update of a registered id succeeds
    and replaces the profile of the session object as a whole, so that every
    holder of the pointer sees the new profile; the id and the token of the
    object, all the other objects, the token map, the session map and the
    cursor map are as before.  The call emits profile_changed and then lets
    the session react (the reaction is modelled from the spec): if the
    session is the host and the new profile has no CanHost, the host slot is
    cleared and host_changed is emitted with nil; otherwise the host slot is
    as before and nothing more is emitted. *)
Theorem update_replaces_profile cfg calls id session profile :
  let w := run calls (New cfg) in
  sessions (manager w) !! id = Some session →
  let w' := (Update id profile w).2 in
  (Update id profile w).1 = None ∧
  Profile (deref w' session) = profile ∧
  ID (deref w' session) = ID (deref w session) ∧
  session_token (deref w' session) = session_token (deref w session) ∧
  (∀ session', session' ≠ session → deref w' session' = deref w session') ∧
  tokens (manager w') = tokens (manager w) ∧
  sessions (manager w') = sessions (manager w) ∧
  cursors (manager w') = cursors (manager w) ∧
  GetHost w' = (if losesHost w session profile then None else GetHost w) ∧
  effects w' =
    effects w ++
    [Emit "profile_changed" (Some session); ProfileChanged session] ++
    (if losesHost w session profile then [Emit "host_changed" None] else []).
Proof.
  intros w Hid w'. pose proof (inv_run calls cfg) as ([Hv1 _] & _).
  fold w in Hv1. specialize (Hv1 _ _ Hid).
  destruct (Update_valid _ _ profile _ Hid Hv1)
    as (w1 & Heq & Ho & _ & Ht & Hs & Hc & _ & Hh & He).
  subst w'. rewrite Heq. cbn [fst snd].
  unfold deref. rewrite Ho, list_lookup_insert_eq by done. simpl.
  repeat split; try done.
  intros session' Hne. by rewrite list_lookup_insert_ne.
Qed.

Lemma update_replaces_profile_witness :
  let w := SetHost (Some 1) oneSession in
  let w' := (Update "u1" guestProfile w).2 in
  Profile (deref w' 1) = guestProfile ∧ GetHost w = Some 1 ∧ GetHost w' = None.
Proof.
  intros w w'.
  destruct (update_replaces_profile sampleConfig
              [CallCreate ("token-u1", None) "u1" hostProfile; CallSetHost (Some 1)]
              "u1" 1 guestProfile)
    as (_ & H1 & _ & _ & _ & _ & _ & _ & H2 & _); [vm_compute; reflexivity|].
  split; [exact H1|]. split; [reflexivity|exact H2].
Defined.

(** *** The second part of the invariant *)

Lemma created_grows w w' es session :
  effects w' = effects w ++ es →
  created w' session ↔ created w session ∨ Emit "created" (Some session) ∈ es.
Proof. intros He. unfold created. rewrite He. apply elem_of_app. Qed.

Lemma deleted_grows w w' es session :
  effects w' = effects w ++ es →
  deleted w' session ↔ deleted w session ∨ Emit "deleted" (Some session) ∈ es.
Proof. intros He. unfold deleted. rewrite He. apply elem_of_app. Qed.

Lemma teardown_no_event s session event payload :
  Emit event payload ∉ teardown s session.
Proof.
  unfold teardown.
  destruct (IsConnected (State s)), (IsWatching (State s)); simpl;
    rewrite ?elem_of_cons, ?elem_of_nil; intuition discriminate.
Qed.

Lemma inv2_New cfg : inv2 (New cfg).
Proof.
  pose proof (inv_New cfg) as (Hv & Hc & _).
  split; [done|]. split; [done|].
  unfold ids_agree, injective, events_sync, registered, created, deleted.
  unfold New. case_decide; simpl;
    (repeat split; try done; intros *; rewrite ?lookup_empty, ?elem_of_nil;
     try done; try tauto);
    match goal with
    | H : ∃ _, _ |- _ => destruct H as [? H]; by rewrite lookup_empty in H
    end.
Qed.

Lemma events_sync_same w w' :
  sessions (manager w') = sessions (manager w) →
  length (objects w') = length (objects w) →
  (∃ es, effects w' = effects w ++ es ∧
     ∀ session, (Emit "created" (Some session) ∉ es) ∧
                (Emit "deleted" (Some session) ∉ es)) →
  events_sync w → events_sync w'.
Proof.
  intros Hs Hl (es & He & Hes) (E1 & E2 & E3).
  assert (Hc : ∀ session, created w' session ↔ created w session).
  { intros session. rewrite (created_grows _ _ _ _ He).
    destruct (Hes session). tauto. }
  assert (Hd : ∀ session, deleted w' session ↔ deleted w session).
  { intros session. rewrite (deleted_grows _ _ _ _ He).
    destruct (Hes session). tauto. }
  split; [|split].
  - intros session. rewrite Hc, Hl. apply E1.
  - intros session. rewrite Hc, Hd. apply E2.
  - intros session. unfold registered. rewrite Hs, Hc, Hd. apply E3.
Qed.

Lemma inv2_Create uid id profile w :
  inv w → inv2 w → inv2 (Create uid id profile w).2.
Proof.
  intros Hinv Hinv2. pose proof (inv_Create uid id profile w Hinv) as (Hv' & Hc' & _).
  destruct uid as [token [err|]]; [done|].
  destruct (sessions (manager w) !! id) as [?|] eqn:Hid;
    [by unfold Create; rewrite Hid|].
  destruct (tokens (manager w) !! token) as [?|] eqn:Htok;
    [by unfold Create; rewrite Hid, Htok|].
  split; [done|]. split; [done|]. clear Hv' Hc'.
  rewrite (Create_success _ _ _ _ Hid Htok). cbn [snd].
  destruct Hinv2 as ([Hv _] & _ & Hids & Hinj & (E1 & E2 & E3) & Hsize).
  set (n := length (objects w)).
  set (w' := {| manager := _ |}).
  assert (Hold : ∀ session, session < n → deref w' session = deref w session).
  { intros session Hlt. unfold deref, w'. simpl. by rewrite lookup_app_l. }
  assert (Hnew : deref w' n = newSessionCtx id token profile).
  { unfold deref, w'. simpl. by rewrite lookup_app_r, Nat.sub_diag by done. }
  assert (He : effects w' = effects w ++ [Emit "created" (Some n)]) by done.
  assert (Hreg : ∀ session, registered w' session ↔ session = n ∨ registered w session).
  { intros session. unfold registered, w'. simpl. split.
    - intros [id' Hl]. rewrite lookup_insert in Hl. case_decide; [left|right].
      + congruence.
      + by exists id'.
    - intros [->|[id' Hl]].
      + exists id. apply lookup_insert_eq.
      + exists id'. rewrite lookup_insert_ne; [done|]. congruence. }
  split; [|split; [|split; [split; [|split]|]]].
  - intros id' session. unfold w' at 1. simpl. rewrite lookup_insert.
    case_decide as Hi.
    + intros [= <-]. subst id'. by rewrite Hnew.
    + intros Hl. rewrite Hold by (by eapply Hv). by apply Hids.
  - intros id1 id2 session. unfold w'. simpl. rewrite !lookup_insert.
    repeat case_decide; intros H1 H2; simplify_eq; try done.
    + apply Hv in H2. lia.
    + apply Hv in H1. lia.
    + by eapply Hinj.
  - intros session. rewrite (created_grows _ _ _ _ He).
    unfold w'. simpl. rewrite length_app. simpl.
    intros [Hc|Hc%list_elem_of_singleton].
    + apply E1 in Hc. lia.
    + injection Hc as ->. unfold n. lia.
  - intros session. rewrite (created_grows _ _ _ _ He), (deleted_grows _ _ _ _ He).
    rewrite list_elem_of_singleton. intros [Hd|Hd]; [|done]. left. by apply E2.
  - intros session.
    rewrite Hreg, (created_grows _ _ _ _ He), (deleted_grows _ _ _ _ He).
    rewrite !list_elem_of_singleton, E3. split.
    + intros [->|[Hc Hd]].
      * split; [by right|]. intros [Hd|Hd]; [|done].
        apply E2, E1 in Hd. unfold n in Hd. lia.
      * split; [by left|]. intros [Hd'|Hd']; done.
    + intros [[Hc|Hc] Hd].
      * right. split; [done|]. intros Hd'. apply Hd. by left.
      * left. by injection Hc.
  - unfold w'. simpl. rewrite !map_size_insert_None by done. by rewrite Hsize.
Qed.

Lemma inv2_Update id profile w : inv w → inv2 w → inv2 (Update id profile w).2.
Proof.
  intros Hinv Hinv2. pose proof (inv_Update id profile w Hinv) as (Hv' & Hc' & _).
  destruct (sessions (manager w) !! id) as [session|] eqn:Hid;
    [|by unfold Update; rewrite Hid].
  split; [done|]. split; [done|]. clear Hv' Hc'.
  pose proof (deref_setProfile w session profile) as Hd. simpl in Hd.
  destruct Hinv as ([Hv1 _] & _).
  destruct (Update_valid _ _ profile _ Hid (Hv1 _ _ Hid))
    as (w1 & Heq & Ho & _ & Ht & Hs & _ & _ & _ & He).
  rewrite Heq. cbn [snd].
  destruct Hinv2 as (_ & _ & Hids & Hinj & Hev & Hsize).
  split; [|split; [|split]].
  - intros id' session'. rewrite Hs. intros Hl.
    destruct (Hd session') as (_ & Hi & _).
    unfold deref, store in *. simpl in *. rewrite Ho, Hi. by apply Hids.
  - unfold injective. rewrite Hs. apply Hinj.
  - eapply events_sync_same; [done| |eexists; split; [exact He|]|done].
    + by rewrite Ho, length_insert.
    + intros session'. rewrite !elem_of_app, !elem_of_cons, !elem_of_nil.
      destruct (losesHost w session profile);
        rewrite ?elem_of_cons, ?elem_of_nil; split; intuition discriminate.
  - by rewrite Ht, Hs.
Qed.

Lemma inv2_Delete id w : inv w → inv2 w → inv2 (Delete id w).2.
Proof.
  intros Hinv Hinv2. pose proof (inv_Delete id w Hinv) as (Hv' & Hc' & _).
  destruct (sessions (manager w) !! id) as [session|] eqn:Hid;
    [|by unfold Delete; rewrite Hid].
  split; [done|]. split; [done|]. clear Hv' Hc'.
  pose proof (Delete_effects _ _ _ Hid) as He.
  destruct (Delete_found _ _ _ Hid)
    as (w' & Heq & Ho & _ & Ht & Hs & _).
  rewrite Heq in *. cbn [snd] in *.
  destruct Hinv as (_ & [_ Hc2] & _).
  destruct Hinv2 as (_ & _ & Hids & Hinj & (E1 & E2 & E3) & Hsize).
  assert (Hd : ∀ l, deref w' l = deref w l)
    by (intros; unfold deref; by rewrite Ho).
  assert (Hreg : ∀ session', registered w' session' ↔
                   registered w session' ∧ session' ≠ session).
  { intros session'. unfold registered. rewrite Hs. split.
    - intros [id' Hl]. rewrite lookup_delete in Hl. case_decide; [done|].
      split; [by exists id'|]. intros ->. by eapply H, Hinj.
    - intros [[id' Hl] Hne]. exists id'. rewrite lookup_delete_ne; [done|].
      intros <-. congruence. }
  assert (Hcr : ∀ session', created w' session' ↔ created w session').
  { intros session'. rewrite (created_grows _ _ _ _ He), elem_of_app.
    rewrite list_elem_of_singleton.
    pose proof (teardown_no_event (deref w session) session
                  "created" (Some session')).
    intuition discriminate. }
  assert (Hde : ∀ session', deleted w' session' ↔
                  deleted w session' ∨ session' = session).
  { intros session'. rewrite (deleted_grows _ _ _ _ He), elem_of_app.
    rewrite list_elem_of_singleton.
    pose proof (teardown_no_event (deref w session) session
                  "deleted" (Some session')).
    split; [|intuition congruence].
    intros [?|[?|Heq']]; [by left|done|right; congruence]. }
  assert (Hregd : registered w session) by (by exists id).
  split; [|split; [|split; [split; [|split]|]]].
  - intros id' session'. rewrite Hs, lookup_delete. case_decide; [done|].
    rewrite Hd. apply Hids.
  - intros id1 id2 session'. rewrite Hs, !lookup_delete.
    repeat case_decide; try done. apply Hinj.
  - intros session'. rewrite Hcr, Ho. apply E1.
  - intros session'. rewrite Hcr, Hde. intros [?| ->]; [by apply E2|].
    by apply E3.
  - intros session'. rewrite Hreg, Hcr, Hde, E3. tauto.
  - rewrite Ht, Hs.
    rewrite !map_size_delete_Some; [by rewrite Hsize|by eexists|].
    exists id. by apply Hc2.
Qed.

Lemma inv2_frame w w' :
  manager w' = manager w ∨
    (tokens (manager w') = tokens (manager w) ∧
     sessions (manager w') = sessions (manager w) ∧
     apiSession (manager w') = apiSession (manager w)) →
  objects w' = objects w →
  (∃ es, effects w' = effects w ++ es ∧
     ∀ session, (Emit "created" (Some session) ∉ es) ∧
                (Emit "deleted" (Some session) ∉ es)) →
  inv2 w → inv2 w'.
Proof.
  intros Hm Ho He ((Hv1 & Hv2) & (Hc1 & Hc2) & Hids & Hinj & Hev & Hsize).
  assert (Ht : tokens (manager w') = tokens (manager w) ∧
               sessions (manager w') = sessions (manager w) ∧
               apiSession (manager w') = apiSession (manager w)).
  { destruct Hm as [->|?]; done. }
  destruct Ht as (Ht & Hs & Ha).
  assert (Hd : ∀ l, deref w' l = deref w l)
    by (intros; unfold deref; by rewrite Ho).
  assert (Hev' : events_sync w')
    by (eapply events_sync_same; [done|by rewrite Ho|done|done]).
  unfold inv2, valid, consistent, ids_agree, injective.
  rewrite Ht, Hs, Ha, Ho.
  split; [done|]. split; [split|].
  - intros token id Hl. destruct (Hc1 _ _ Hl) as (l & ? & ?).
    exists l. by rewrite Hd.
  - intros id l Hl. rewrite Hd. by apply Hc2.
  - split; [|done]. intros id l Hl. rewrite Hd. by apply Hids.
Qed.

Lemma no_lifecycle_event_nil session :
  (Emit "created" (Some session) ∉ @nil Effect) ∧
  (Emit "deleted" (Some session) ∉ @nil Effect).
Proof. split; apply not_elem_of_nil. Qed.

Lemma inv2_exec c w : inv w → inv2 w → inv2 (exec c w).
Proof.
  intros Hinv Hinv2.
  destruct c as [uid id profile|id profile|id|host| |cursor session|]; simpl.
  - by apply inv2_Create.
  - by apply inv2_Update.
  - by apply inv2_Delete.
  - apply (inv2_frame w (SetHost host w));
      [right; by repeat split|reflexivity| |exact Hinv2].
    eexists. split; [done|]. intros session.
    rewrite !list_elem_of_singleton. split; discriminate.
  - apply (inv2_frame w (ClearHost w));
      [right; by repeat split|reflexivity| |exact Hinv2].
    eexists. split; [done|]. intros session.
    rewrite !list_elem_of_singleton. split; discriminate.
  - apply (inv2_frame w (SetCursor cursor session w));
      [right; by repeat split|reflexivity| |exact Hinv2].
    exists []. split; [by rewrite app_nil_r|]. apply no_lifecycle_event_nil.
  - apply (inv2_frame w (PopCursors w).2);
      [right; by repeat split|reflexivity| |exact Hinv2].
    exists []. split; [by rewrite app_nil_r|]. apply no_lifecycle_event_nil.
Qed.

Lemma inv2_run calls cfg : inv2 (run calls (New cfg)).
Proof.
  induction calls as [|c calls IH] using rev_ind.
  - apply inv2_New.
  - rewrite run_snoc. apply inv2_exec; [apply inv_run|done].
Qed.

(** *** Keys, objects and the list of sessions *)

(** X5: after any sequence of calls, a registered session carries the key it
    is registered under as its id, two keys never share a session object, and
    every list that List may return holds each registered session exactly
    once, as many sessions as the session map has entries, and never the
    service session. *)
Theorem list_enumerates_sessions cfg calls snapshot :
  let w := run calls (New cfg) in
  ListResult w snapshot →
  ids_agree w ∧ injective w ∧
  NoDup snapshot ∧
  length snapshot = size (sessions (manager w)) ∧
  (∀ session, session ∈ snapshot ↔ registered w session) ∧
  (∀ api, apiSession (manager w) = Some api → api ∉ snapshot).
Proof.
  intros w Hsnap.
  pose proof (inv2_run calls cfg) as (_ & _ & Hids & Hinj & _).
  pose proof (inv_run calls cfg) as (_ & _ & Hsvc). fold w in Hids, Hinj, Hsvc.
  split; [done|]. split; [done|]. unfold ListResult in Hsnap.
  split; [|split; [|split]].
  - rewrite Hsnap. unfold List. apply NoDup_fmap_2_strong.
    + intros [id1 l1] [id2 l2] H1%elem_of_map_to_list H2%elem_of_map_to_list.
      simpl. intros <-. f_equal. by eapply Hinj.
    + apply NoDup_map_to_list.
  - rewrite Hsnap. unfold List. by rewrite length_fmap, length_map_to_list.
  - intros session. rewrite Hsnap. apply elem_of_List.
  - intros api Hapi. rewrite Hsnap, elem_of_List. intros [id Hl].
    unfold service in Hsvc. rewrite Hapi in Hsvc.
    destruct Hsvc as (_ & _ & _ & Hnot). by apply (Hnot id).
Qed.

Lemma list_enumerates_sessions_witness :
  NoDup (List twoSessions) ∧ length (List twoSessions) = 2 ∧
  0 ∉ List twoSessions.
Proof.
  destruct (list_enumerates_sessions sampleConfig
              [CallCreate ("token-u1", None) "u1" hostProfile;
               CallCreate ("token-u2", None) "u2" guestProfile;
               CallSetHost (Some 1);
               CallSetCursor {| X := 10; Y := 20 |} (Some 1)]
              (List twoSessions) ltac:(unfold ListResult; reflexivity))
    as (_ & _ & Hnd & Hlen & _ & Hapi).
  split; [exact Hnd|]. split; [exact Hlen|]. by apply Hapi.
Defined.

(** X6: after any sequence of calls the token map has as many entries as the
    session map, and two registered sessions with the same token are
    registered under the same id. *)
Theorem tokens_are_unique cfg calls :
  let w := run calls (New cfg) in
  size (tokens (manager w)) = size (sessions (manager w)) ∧
  ∀ id id' session session',
    sessions (manager w) !! id = Some session →
    sessions (manager w) !! id' = Some session' →
    session_token (deref w session) = session_token (deref w session') →
    id = id' ∧ session = session'.
Proof.
  intros w.
  pose proof (inv2_run calls cfg) as (_ & [_ Hc2] & _ & _ & _ & Hsize).
  fold w in Hc2, Hsize. split; [done|].
  intros id id' session session' H1 H2 Ht.
  pose proof (Hc2 _ _ H1) as T1. pose proof (Hc2 _ _ H2) as T2.
  rewrite Ht in T1. assert (id = id') as -> by congruence.
  split; [done|congruence].
Qed.

Lemma tokens_are_unique_witness :
  size (tokens (manager twoSessions)) = 2 ∧
  session_token (deref twoSessions 1) ≠ session_token (deref twoSessions 2).
Proof.
  destruct (tokens_are_unique sampleConfig
              [CallCreate ("token-u1", None) "u1" hostProfile;
               CallCreate ("token-u2", None) "u2" guestProfile;
               CallSetHost (Some 1);
               CallSetCursor {| X := 10; Y := 20 |} (Some 1)]) as [Hs Hu].
  split; [exact Hs|]. intros Ht.
  destruct (Hu "u1" "u2" 1 2 ltac:(vm_compute; reflexivity)
              ltac:(vm_compute; reflexivity) Ht) as [Hid _].
  discriminate Hid.
Defined.

(** *** Objects that are not registered *)

Lemma exec_objects_length c w :
  (length (objects w) ≤ length (objects (exec c w)))%nat.
Proof.
  destruct c as [[token [err|]] id profile|id profile|id|host| |cursor session|];
    unfold exec; try done.
  - destruct (sessions (manager w) !! id) as [?|] eqn:Hid;
      [by unfold Create; rewrite Hid|].
    destruct (tokens (manager w) !! token) as [?|] eqn:Htok;
      [by unfold Create; rewrite Hid, Htok|].
    rewrite (Create_success _ _ _ _ Hid Htok). simpl. rewrite length_app. lia.
  - destruct (sessions (manager w) !! id) as [session|] eqn:Hid;
      [|by unfold Update; rewrite Hid].
    rewrite (Update_found _ _ _ _ Hid). cbn [snd].
    destruct (profileChanged_frame session
                {| manager := manager w;
                   objects := <[session := setProfile profile (deref w session)]>
                                (objects w);
                   effects := effects w ++ [Emit "profile_changed" (Some session);
                                            ProfileChanged session] |})
      as (-> & _).
    simpl. by rewrite length_insert.
  - destruct (sessions (manager w) !! id) as [session|] eqn:Hid;
      [|by unfold Delete; rewrite Hid].
    destruct (Delete_found _ _ _ Hid) as (w' & -> & Ho & _).
    simpl. by rewrite Ho.
Qed.

Lemma exec_unregistered c w session :
  session < length (objects w) → ¬ registered w session →
  deref (exec c w) session = deref w session ∧ ¬ registered (exec c w) session.
Proof.
  intros Hlt Hnot.
  destruct c as [[token [err|]] id profile|id profile|id|host| |cursor session'|];
    unfold exec; try done.
  - destruct (sessions (manager w) !! id) as [?|] eqn:Hid;
      [by unfold Create; rewrite Hid|].
    destruct (tokens (manager w) !! token) as [?|] eqn:Htok;
      [by unfold Create; rewrite Hid, Htok|].
    rewrite (Create_success _ _ _ _ Hid Htok). unfold deref, registered. simpl.
    rewrite lookup_app_l by done. split; [done|].
    intros [id' Hl]. rewrite lookup_insert in Hl. case_decide.
    + simplify_eq. lia.
    + apply Hnot. by exists id'.
  - destruct (sessions (manager w) !! id) as [session'|] eqn:Hid;
      [|by unfold Update; rewrite Hid].
    rewrite (Update_found _ _ _ _ Hid). cbn [snd].
    destruct (profileChanged_frame session'
                {| manager := manager w;
                   objects := <[session' := setProfile profile (deref w session')]>
                                (objects w);
                   effects := effects w ++ [Emit "profile_changed" (Some session');
                                            ProfileChanged session'] |})
      as (Ho & _ & _ & Hs & _).
    split; [|unfold registered; by rewrite Hs].
    unfold deref at 1. rewrite Ho. simpl.
    rewrite list_lookup_insert_ne; [done|]. intros ->. apply Hnot. by exists id.
  - destruct (sessions (manager w) !! id) as [session'|] eqn:Hid;
      [|by unfold Delete; rewrite Hid].
    destruct (Delete_found _ _ _ Hid) as (w' & -> & Ho & _ & _ & Hs & _).
    unfold deref, registered. simpl. rewrite Ho, Hs. split; [done|].
    intros [id' Hl]. apply Hnot. exists id'.
    rewrite lookup_delete in Hl. by case_decide.
Qed.

Lemma run_unregistered calls w session :
  session < length (objects w) → ¬ registered w session →
  deref (run calls w) session = deref w session ∧
  ¬ registered (run calls w) session.
Proof.
  intros Hlt Hnot. induction calls as [|c calls IH] using rev_ind; [done|].
  rewrite run_snoc. destruct IH as [IH1 IH2].
  assert (Hlt' : session < length (objects (run calls w))).
  { clear IH1 IH2. induction calls as [|c' calls IH] using rev_ind; [done|].
    rewrite run_snoc. eapply Nat.lt_le_trans; [apply IH|].
    apply exec_objects_length. }
  destruct (exec_unregistered c _ _ Hlt' IH2) as [H1 H2].
  split; [by rewrite H1|done].
Qed.

(** X11: an object that is not registered is out of reach of the registry:
    whatever calls follow, it is never modified and never becomes registered.
    This holds of the service session and of every deleted session, which,
    for instance, the host slot may still refer to. *)
Theorem unregistered_objects_are_frozen calls w session :
  session < length (objects w) → ¬ registered w session →
  deref (run calls w) session = deref w session ∧
  ¬ registered (run calls w) session.
Proof. apply run_unregistered. Qed.

Lemma unregistered_objects_are_frozen_witness :
  let w := (Delete "u1" twoSessions).2 in
  GetHost w = Some 1 ∧
  deref (run [CallCreate ("token-u1", None) "u1" adminProfile;
              CallUpdate "u1" guestProfile] w) 1 = deref twoSessions 1.
Proof.
  intros w. split; [reflexivity|].
  destruct (unregistered_objects_are_frozen
              [CallCreate ("token-u1", None) "u1" adminProfile;
               CallUpdate "u1" guestProfile] w 1) as [H _].
  - vm_compute. lia.
  - intros [id Hl].
    assert (Hs : sessions (manager w) = <["u2" := 2]> ∅)
      by (vm_compute; reflexivity).
    rewrite Hs, lookup_insert in Hl. case_decide; [discriminate|].
    by rewrite lookup_empty in Hl.
  - exact H.
Defined.

(** *** The service session and the configuration *)

(** X12: the configuration and the service session are fixed by New: after
    any sequence of calls the four configuration accessors return the values
    of the configuration given to New; without a service token there is no
    service session; with one, the service session is the object New
    allocated, still with the id "API", the service token and the profile New
    gave it (an admin that may not connect), not registered and so not
    returned by Get under any id. *)
Theorem service_session_is_fixed cfg calls :
  let w := run calls (New cfg) in
  ImplicitHosting w = ImplicitHosting_ cfg ∧
  InactiveCursors w = InactiveCursors_ cfg ∧
  CookieEnabled w = CookieEnabled_ cfg ∧
  MercifulReconnect w = MercifulReconnect_ cfg ∧
  (APIToken cfg = EmptyString → apiSession (manager w) = None) ∧
  (APIToken cfg ≠ EmptyString →
     apiSession (manager w) = Some 0 ∧
     deref w 0 = newSessionCtx "API" (APIToken cfg) apiProfile ∧
     IsAdmin (Profile (deref w 0)) = true ∧
     CanConnect (Profile (deref w 0)) = false ∧
     ∀ id, Get id w ≠ (Some 0, true)).
Proof.
  intros w. pose proof (run_config calls cfg) as Hcfg. fold w in Hcfg.
  unfold ImplicitHosting, InactiveCursors, CookieEnabled, MercifulReconnect.
  rewrite Hcfg. do 4 (split; [done|]).
  pose proof (inv_run calls cfg) as (_ & _ & Hsvc). fold w in Hsvc.
  unfold service in Hsvc. rewrite Hcfg in Hsvc.
  assert (Hapi : apiSession (manager w) = apiSession (manager (New cfg))).
  { unfold w. clear. induction calls as [|c calls IH] using rev_ind; [done|].
    rewrite run_snoc, <- IH. clear IH. set (w := run calls (New cfg)). clearbody w.
    destruct c as [[token [err|]] id profile|id profile|id|host| |cursor session|];
      unfold exec; try done.
    - unfold Create. destruct (sessions (manager w) !! id); [done|].
      by destruct (tokens (manager w) !! token).
    - destruct (sessions (manager w) !! id) as [session|] eqn:Hid;
        [|by unfold Update; rewrite Hid].
      rewrite (Update_found _ _ _ _ Hid). cbn [snd].
      by destruct (profileChanged_frame session
                     {| manager := manager w;
                        objects :=
                          <[session := setProfile profile (deref w session)]>
                            (objects w);
                        effects :=
                          effects w ++ [Emit "profile_changed" (Some session);
                                        ProfileChanged session] |})
        as (_ & _ & _ & _ & _ & ->).
    - destruct (sessions (manager w) !! id) as [session|] eqn:Hid;
        [|by unfold Delete; rewrite Hid].
      destruct (Delete_found _ _ _ Hid) as (w' & -> & _ & _ & _ & _ & _ & _ & Ha).
      done. }
  split.
  - intros Hempty. rewrite Hapi. unfold New. by rewrite decide_False by tauto.
  - intros Hne.
    assert (Hnew : apiSession (manager (New cfg)) = Some 0 ∧
                   deref (New cfg) 0 = newSessionCtx "API" (APIToken cfg) apiProfile ∧
                   0 < length (objects (New cfg)) ∧ ¬ registered (New cfg) 0).
    { unfold New, registered. rewrite decide_True by done. simpl.
      repeat split; [lia|]. intros [id Hl]. by rewrite lookup_empty in Hl. }
    destruct Hnew as (Ha & Hd & Hlt & Hnot).
    destruct (run_unregistered calls (New cfg) 0 Hlt Hnot)
      as [Hd' Hnot'].
    fold w in Hd', Hnot'. rewrite Hapi, Ha, Hd', Hd.
    repeat split; try done.
    intros id Hg. apply Hnot'. exists id. unfold Get in Hg.
    destruct (sessions (manager w) !! id); by simplify_eq.
Qed.

Lemma service_session_is_fixed_witness :
  apiSession (manager twoSessions) = Some 0 ∧
  Profile (deref twoSessions 0) = apiProfile ∧
  MercifulReconnect twoSessions = true.
Proof.
  destruct (service_session_is_fixed sampleConfig
              [CallCreate ("token-u1", None) "u1" hostProfile;
               CallCreate ("token-u2", None) "u2" guestProfile;
               CallSetHost (Some 1);
               CallSetCursor {| X := 10; Y := 20 |} (Some 1)])
    as (_ & _ & _ & Hm & _ & Hsvc).
  destruct (Hsvc ltac:(discriminate)) as (Ha & Hd & _).
  split; [exact Ha|]. split; [exact (f_equal Profile Hd)|exact Hm].
Defined.

(** *** Delete *)

(** A world with the same registry whose objects keep their ids and tokens
    keeps the invariant: the handles of the sessions do not matter to it. *)
Lemma inv_handles w w' :
  manager w' = manager w →
  length (objects w') = length (objects w) →
  (∀ l, session_token (deref w' l) = session_token (deref w l) ∧
        session_id (deref w' l) = session_id (deref w l)) →
  inv w → inv w'.
Proof.
  intros Hm Hl Hd ((Hv1 & Hv2) & (Hc1 & Hc2) & Hsvc).
  unfold inv, valid, consistent, service in *. rewrite Hm, Hl.
  split; [done|]. split; [split|].
  - intros token id Ht. destruct (Hc1 _ _ Ht) as (l & ? & ?).
    exists l. split; [done|]. by destruct (Hd l) as [-> _].
  - intros id l Hs. destruct (Hd l) as [-> _]. by apply Hc2.
  - destruct (apiSession (manager w)) as [api|]; [|done].
    by destruct (Hd api) as [-> ->].
Qed.

Lemma inv_liveSession : inv liveSession.
Proof.
  apply (inv_handles (run [CallCreate ("token-u1", None) "u1" hostProfile;
                           CallSetHost (Some 1)] (New sampleConfig))).
  - reflexivity.
  - reflexivity.
  - intros [|[|l]]; by vm_compute.
  - apply inv_run.
Qed.

(** X13: in a registry that satisfies the invariant, whatever the handles of
    its sessions, a Delete of a registered id revokes the session: Get no
    longer finds the id, and GetByToken with the token of the session no
    longer returns it (it finds nothing, unless the token is the service
    token); every other id and every other token resolve as before.  The
    session object stays as it was.  The call tears down the websocket peer
    if the session is connected, then the WebRTC peer if it is watching, and
    emits the deleted event last. *)
Theorem delete_revokes_session w id session :
  inv w →
  sessions (manager w) !! id = Some session →
  let w' := (Delete id w).2 in
  let token := session_token (deref w session) in
  Get id w' = (None, false) ∧
  (GetByToken token w').1 ≠ Some session ∧
  (token ≠ APIToken (config (manager w)) → GetByToken token w' = (None, false)) ∧
  (∀ id', id' ≠ id → Get id' w' = Get id' w) ∧
  (∀ token', token' ≠ token → GetByToken token' w' = GetByToken token' w) ∧
  deref w' session = deref w session ∧
  effects w' =
    effects w ++
    (if IsConnected (State (deref w session))
     then [WebSocketPeerDestroy session "session deleted"] else []) ++
    (if IsWatching (State (deref w session))
     then [WebRTCPeerDestroy session] else []) ++
    [Emit "deleted" (Some session)].
Proof.
  intros (_ & [Hc1 Hc2] & Hsvc) Hid w' token.
  unfold service in Hsvc.
  pose proof (Delete_effects _ _ _ Hid) as He.
  destruct (Delete_found _ _ _ Hid)
    as (w1 & Heq & Ho & _ & Ht & Hs & _ & _ & Hapi).
  subst w'. rewrite Heq in *. cbn [snd] in *. fold token in Ht.
  assert (Hd : ∀ l, deref w1 l = deref w l)
    by (intros; unfold deref; by rewrite Ho).
  assert (Htok : GetByToken token w1 =
            match apiSession (manager w) with
            | Some api =>
              if decide (APIToken (config (manager w)) = token)
              then (Some api, true) else (None, false)
            | None => (None, false)
            end).
  { unfold GetByToken. rewrite Ht, lookup_delete_eq, Hapi.
    destruct (apiSession (manager w)) as [api|]; [|done].
    rewrite Hd. by destruct Hsvc as (_ & -> & _). }
  split; [unfold Get; by rewrite Hs, lookup_delete_eq|].
  split; [|split; [|split; [|split; [|split]]]]; try done.
  - rewrite Htok. destruct (apiSession (manager w)) as [api|]; [|done].
    case_decide; [|done]. simpl. intros [= ->].
    destruct Hsvc as (_ & _ & _ & Hnot). by apply (Hnot id).
  - intros Hne. rewrite Htok. destruct (apiSession (manager w)); [|done].
    by rewrite decide_False.
  - intros id' Hne. unfold Get. by rewrite Hs, lookup_delete_ne.
  - intros token' Hne. unfold GetByToken, Get. rewrite Ht, Hs, Hapi.
    rewrite lookup_delete_ne by done.
    destruct (tokens (manager w) !! token') as [id'|] eqn:Hl.
    + rewrite lookup_delete_ne; [done|]. intros <-.
      destruct (Hc1 _ _ Hl) as (session' & Hs' & Htk).
      unfold token in Hne. congruence.
    + destruct (apiSession (manager w)); [|done]. by rewrite Hd.
  - rewrite He. unfold teardown. by rewrite <- app_assoc.
Qed.

Lemma delete_revokes_session_witness :
  let w' := (Delete "u1" liveSession).2 in
  Get "u1" w' = (None, false) ∧ GetByToken "token-u1" w' = (None, false) ∧
  GetHost w' = Some 1 ∧
  effects w' =
    effects liveSession ++
    [WebSocketPeerDestroy 1 "session deleted"; WebRTCPeerDestroy 1;
     Emit "deleted" (Some 1)].
Proof.
  intros w'.
  destruct (delete_revokes_session liveSession "u1" 1 inv_liveSession)
    as (H1 & _ & H2 & _ & _ & _ & H3); [vm_compute; reflexivity|].
  split; [exact H1|]. split; [apply H2; discriminate|].
  split; [reflexivity|exact H3].
Defined.

(** *** Broadcasts *)

Lemma added_appendEffects es w : added w (appendEffects es w) = es.
Proof. unfold added, appendEffects. simpl. apply drop_app_length. Qed.

(** X14: the three broadcasts compared.  A broadcast changes neither the
    registry nor the objects and adds at most one send per session of the
    snapshot; every session AdminBroadcast or InactiveCursorsBroadcast sends
    to, Broadcast with the same arguments sends to as well; and an empty
    exclusion list excludes as little as no list. *)
Theorem broadcasts_compared w snapshot event payload exclude :
  let sent := added w (Broadcast snapshot event payload exclude w) in
  manager (Broadcast snapshot event payload exclude w) = manager w ∧
  objects (Broadcast snapshot event payload exclude w) = objects w ∧
  effects (Broadcast snapshot event payload exclude w) = effects w ++ sent ∧
  (length sent ≤ length snapshot)%nat ∧
  (∀ e, e ∈ added w (AdminBroadcast snapshot event payload exclude w) → e ∈ sent) ∧
  (∀ e, e ∈ added w (InactiveCursorsBroadcast snapshot event payload exclude w) →
        e ∈ sent) ∧
  Broadcast snapshot event payload (Some []) w =
  Broadcast snapshot event payload None w.
Proof.
  intros sent. subst sent.
  rewrite !Broadcast_spec, AdminBroadcast_spec, InactiveCursorsBroadcast_spec.
  rewrite !added_appendEffects.
  assert (Hsub : ∀ (keep : SessionCtx → bool),
    (∀ s, keep s = true → connected s = true) →
    ∀ e, e ∈ sends event payload
               (filter (fun session => receives keep exclude (objects w) session = true)
                       snapshot) →
         e ∈ sends event payload
               (filter (fun session => receives connected exclude (objects w) session = true)
                       snapshot)).
  { intros keep Hk e. unfold sends. rewrite !list_elem_of_fmap.
    intros (l & -> & Hin). exists l. split; [done|].
    apply list_elem_of_filter in Hin as [Hr Hin].
    apply list_elem_of_filter. split; [|done].
    unfold receives in *. apply andb_prop in Hr as [Hr ->].
    by rewrite (Hk _ Hr). }
  split; [done|]. split; [done|]. split; [done|]. split.
  { unfold sends. rewrite length_fmap. apply length_filter. }
  split; [|split].
  - apply Hsub. unfold connectedAdmin, connected. by intros s [? _]%andb_prop.
  - apply Hsub. unfold connectedInactiveCursors, connected.
    by intros s [? _]%andb_prop.
  - reflexivity.
Qed.

(** X15: in a registry whose sessions carry their keys as ids (as they do
    after any sequence of calls), a broadcast with an exclusion list sends to
    exactly the connected sessions registered under a key that is not in the
    list. *)
Theorem broadcast_excludes_by_key w snapshot event payload exclude session :
  ids_agree w →
  ListResult w snapshot →
  Send session event payload ∈
    added w (Broadcast snapshot event payload (Some exclude) w) ↔
  ∃ id, sessions (manager w) !! id = Some session ∧
        IsConnected (State (deref w session)) = true ∧ id ∉ exclude.
Proof.
  intros Hids Hsnap. rewrite Broadcast_spec, added_appendEffects.
  destruct (delivers_intro connected event payload (Some exclude) snapshot w Hsnap)
    as (_ & _ & sent & He & -> & _ & Hiff).
  rewrite Hiff. unfold registered, connected, excluded. split.
  - intros ([id Hl] & Hc & Hex). exists id. split; [done|]. split; [done|].
    apply bool_decide_eq_false in Hex. by rewrite (Hids _ _ Hl) in Hex.
  - intros (id & Hl & Hc & Hex). split; [by exists id|]. split; [done|].
    apply bool_decide_eq_false. by rewrite (Hids _ _ Hl).
Qed.

Lemma broadcast_excludes_by_key_witness :
  Send 1 "x" "payload" ∈
    added adminAndGuest
      (Broadcast (List adminAndGuest) "x" "payload" (Some ["guest"]) adminAndGuest).
Proof.
  assert (Hs : sessions (manager adminAndGuest) =
               <["guest" := 2]> (<["admin" := 1]> ∅))
    by (vm_compute; reflexivity).
  apply (broadcast_excludes_by_key adminAndGuest (List adminAndGuest)
           "x" "payload" ["guest"] 1).
  - intros id session. rewrite Hs, !lookup_insert.
    repeat case_decide; intros Hl; simplify_eq; reflexivity.
  - unfold ListResult. reflexivity.
  - exists "admin". split; [vm_compute; reflexivity|].
    split; [reflexivity|]. rewrite list_elem_of_singleton. discriminate.
Defined.

End RegistryMore.

(** ** Events and listeners: proofs *)

Module EventProofs.

Import SessionManager RegistrySpec Events RegistryLaws RegistryProofs RegistryMore.

Implicit Types (w : World) (session : loc) (id token : string).

Lemma listenerCalls_app {A} (sub : Subscription A) es es' :
  listenerCalls sub (es ++ es') = listenerCalls sub es ++ listenerCalls sub es'.
Proof. apply bind_app. Qed.

Lemma added_app w w' es : effects w' = effects w ++ es → added w w' = es.
Proof. intros He. unfold added. rewrite He. apply drop_app_length. Qed.

Lemma hostEvents_app es es' : hostEvents (es ++ es') = hostEvents es ++ hostEvents es'.
Proof. apply omap_app. Qed.

Lemma hostAfter_last c w :
  hostAfter c w = default (GetHost w) (last (hostChanges c w)).
Proof.
  destruct c as [uid id profile|id profile|id|host| |cursor session|];
    try done.
  simpl. destruct (sessions (manager w) !! id) as [session|]; [|done].
  by destruct (losesHost w session profile).
Qed.

(** What a call adds to the effects: events of the registry only, and
    host_changed events as [hostChanges] says. *)
Lemma exec_adds c w :
  valid w →
  ∃ es, effects (exec c w) = effects w ++ es ∧
        forallb registryEvent es = true ∧
        hostEvents es = hostChanges c w ∧
        GetHost (exec c w) = hostAfter c w.
Proof.
  intros [Hv _].
  destruct c as [[token [err|]] id profile|id profile|id|host| |cursor session|];
    unfold exec.
  - exists []. by rewrite app_nil_r.
  - destruct (sessions (manager w) !! id) as [?|] eqn:Hid;
      [exists []; unfold Create; rewrite Hid; by rewrite app_nil_r|].
    destruct (tokens (manager w) !! token) as [?|] eqn:Htok;
      [exists []; unfold Create; rewrite Hid, Htok; by rewrite app_nil_r|].
    rewrite (Create_success _ _ _ _ Hid Htok). by eexists.
  - simpl. destruct (sessions (manager w) !! id) as [session|] eqn:Hid;
      [|exists []; unfold Update; rewrite Hid; by rewrite app_nil_r].
    destruct (Update_valid _ _ profile _ Hid (Hv _ _ Hid))
      as (w1 & -> & _ & _ & _ & _ & _ & _ & Hh & He).
    eexists. split; [exact He|]. split; [|split; [|exact Hh]];
      by destruct (losesHost w session profile).
  - destruct (sessions (manager w) !! id) as [session|] eqn:Hid;
      [|exists []; unfold Delete; rewrite Hid; by rewrite app_nil_r].
    rewrite (Delete_effects _ _ _ Hid). eexists. split; [done|].
    pose proof (Delete_host id w) as Hh. simpl.
    split; [|split; [|exact Hh]]; unfold teardown;
      by destruct (IsConnected _), (IsWatching _).
  - by eexists.
  - by eexists.
  - exists []. by rewrite app_nil_r.
  - exists []. by rewrite app_nil_r.
Qed.

Lemma run_events cfg calls :
  let w := run calls (New cfg) in
  forallb registryEvent (effects w) = true ∧
  GetHost w = default None (last (hostEvents (effects w))).
Proof.
  induction calls as [|c calls IH] using rev_ind.
  - simpl. unfold New. by case_decide.
  - destruct IH as (IH1 & IH2). intros w. subst w.
    rewrite run_snoc.
    destruct (exec_adds c (run calls (New cfg))) as (es & -> & Hes & Hh & Hg);
      [apply inv_run|].
    rewrite forallb_app, hostEvents_app, IH1, Hes, Hh, Hg, hostAfter_last.
    split; [done|]. rewrite IH2.
    destruct (hostChanges c (run calls (New cfg))) as [|h hs] using rev_ind.
    + by rewrite app_nil_r.
    + by rewrite app_assoc, !last_snoc.
Qed.

Lemma listenerCalls_host {A} (listener : Session → A) es :
  listenerCalls (OnHostChanged listener) es = (fun host => Some (listener host)) <$> hostEvents es.
Proof.
  induction es as [|e es IH]; [done|].
  change (e :: es) with ([e] ++ es).
  rewrite listenerCalls_app, hostEvents_app, fmap_app, IH. f_equal.
  destruct e as [event [session|]| | | |]; try done;
    unfold listenerCalls, hostEvents; simpl; by case_decide.
Qed.

(** *** The host slot and its event *)

(** X7: after any sequence of calls, GetHost returns the payload of the last
    host_changed event (nil if there was none), and a listener registered
    with OnHostChanged was called once per host_changed event, with its
    payload, nil included, without a failing type assertion.  One more call
    changes the host slot, and emits host_changed, only as follows: SetHost
    sets its argument and ClearHost nil; an Update of a registered id whose
    session is the host, to a profile without CanHost, clears the slot (the
    reaction of the session, modelled from the spec); every other call,
    Create and Delete included, leaves the slot as it is and emits no
    host_changed. *)
Theorem host_follows_calls {A} (listener : Session → A) cfg calls :
  let w := run calls (New cfg) in
  GetHost w = default None (last (hostEvents (effects w))) ∧
  listenerCalls (OnHostChanged listener) (effects w) =
    (fun host => Some (listener host)) <$> hostEvents (effects w) ∧
  ∀ c, GetHost (exec c w) = hostAfter c w ∧
       hostEvents (added w (exec c w)) = hostChanges c w.
Proof.
  intros w. destruct (run_events cfg calls) as (_ & Hg). fold w in Hg.
  split; [done|]. split; [apply listenerCalls_host|].
  intros c. destruct (exec_adds c w) as (es & He & _ & Hh & Hg');
    [apply inv_run|].
  by rewrite (added_app _ _ _ He).
Qed.

(** *** Listeners of the lifecycle events *)

Lemma elem_of_listenerCalls_asserting event session es :
  Some (Some session) ∈
    listenerCalls {| subEvent := event; subHandler := asserting (fun s => s) |} es ↔
  Emit event (Some session) ∈ es.
Proof.
  unfold listenerCalls. rewrite list_elem_of_bind. split.
  - intros (e & Hf & He). destruct e as [event' payload| | | |]; simpl in Hf;
      try by apply elem_of_nil in Hf.
    case_decide as Hev; [|by apply elem_of_nil in Hf].
    apply list_elem_of_singleton in Hf. subst event'.
    destruct payload as [session'|]; [|done]. simpl in Hf. by simplify_eq.
  - intros He. eexists. split; [|done]. simpl. rewrite decide_True by done.
    by apply list_elem_of_singleton.
Qed.

(** X8: after any sequence of calls, the registered sessions are exactly the
    sessions an OnCreated listener was called with and an OnDeleted listener
    was not: a created session is registered until it is deleted, and the
    events never announce a session that is still registered as deleted. *)
Theorem listeners_track_registration cfg calls session :
  let w := run calls (New cfg) in
  let seen (sub : Subscription Session) :=
    Some (Some session) ∈ listenerCalls sub (effects w) in
  registered w session ↔
  seen (OnCreated (fun s => s)) ∧ ¬ seen (OnDeleted (fun s => s)).
Proof.
  intros w seen. subst seen. simpl.
  pose proof (inv2_run calls cfg) as (_ & _ & _ & _ & (_ & _ & E3) & _).
  fold w in E3. unfold OnCreated, OnDeleted.
  rewrite !elem_of_listenerCalls_asserting. apply E3.
Qed.

Lemma listenerCalls_asserting_total {A} event (listener : Session → A) es :
  forallb registryEvent es = true →
  event ≠ "host_changed" →
  None ∉ listenerCalls {| subEvent := event; subHandler := asserting listener |} es.
Proof.
  intros Hes Hev. unfold listenerCalls. rewrite list_elem_of_bind.
  intros (e & Hf & He).
  rewrite forallb_forall in Hes. apply list_elem_of_In, Hes in He.
  destruct e as [event' payload| | | |]; simpl in Hf;
    try by apply elem_of_nil in Hf.
  case_decide as Heq; [|by apply elem_of_nil in Hf].
  apply list_elem_of_singleton in Hf. subst event'.
  destruct payload as [session'|]; [done|].
  unfold registryEvent in He. apply orb_prop in He as [He|He].
  - by apply bool_decide_eq_true in He.
  - apply andb_prop in He as [He _]. apply bool_decide_eq_true in He.
    by destruct He.
Qed.

Lemma listenerCalls_foreign {A} event (handler : Session → option A) es :
  forallb registryEvent es = true →
  event ∉ ["created"; "deleted"; "profile_changed"; "host_changed"] →
  listenerCalls {| subEvent := event; subHandler := handler |} es = [].
Proof.
  intros Hes Hev. induction es as [|e es IH]; [done|].
  simpl in Hes. apply andb_prop in Hes as [He Hes].
  change (e :: es) with ([e] ++ es). rewrite listenerCalls_app, IH by done.
  rewrite app_nil_r. destruct e as [event' payload| | | |]; try done.
  unfold listenerCalls. simpl. case_decide as Heq; [|done]. subst event'.
  exfalso. simpl in He. apply orb_prop in He as [He|He].
  - apply bool_decide_eq_true in He. apply Hev. subst.
    rewrite !elem_of_cons. auto.
  - apply andb_prop in He as [_ He]. apply bool_decide_eq_true in He.
    apply Hev. rewrite !elem_of_cons in He. rewrite !elem_of_cons.
    intuition.
Qed.

(** X9: after any sequence of calls, no closure registered through
    OnCreated, OnDeleted, OnProfileChanged or OnHostChanged has met a payload
    on which its type assertion fails, and the closures registered through
    OnConnected, OnDisconnected and OnStateChanged were never called: the
    calls of the registry emit none of these three events. *)
Theorem listeners_never_panic {A} (listener : Session → A) cfg calls :
  let es := effects (run calls (New cfg)) in
  (None ∉ listenerCalls (OnCreated listener) es) ∧
  (None ∉ listenerCalls (OnDeleted listener) es) ∧
  (None ∉ listenerCalls (OnProfileChanged listener) es) ∧
  (None ∉ listenerCalls (OnHostChanged listener) es) ∧
  listenerCalls (OnConnected listener) es = [] ∧
  listenerCalls (OnDisconnected listener) es = [] ∧
  listenerCalls (OnStateChanged listener) es = [].
Proof.
  intros es. destruct (run_events cfg calls) as (Hes & _). fold es in Hes.
  repeat split;
    try (by apply listenerCalls_asserting_total);
    try (apply listenerCalls_foreign; [done|];
         rewrite !elem_of_cons, elem_of_nil; intuition discriminate).
  rewrite listenerCalls_host, list_elem_of_fmap. by intros (? & ? & _).
Qed.

(** X10: what the listeners see of one call, in any registry.  A Create of
    a fresh id with a fresh token calls the OnCreated listeners once, with the
    session it returns, and no other listener.  An Update of a registered id
    calls the OnProfileChanged listeners once, with the session concerned;
    the OnHostChanged listeners are called, once and with nil, exactly when
    the session is the host and the new profile has no CanHost (the reaction
    of the session, modelled from the spec).  A Delete of a registered id
    calls the OnDeleted listeners once, with the session concerned, and no
    other listener.  A SetHost calls the OnHostChanged listeners once, with
    its argument, and no other listener. *)
Theorem listeners_per_call {A} (listener : Session → A) w token id session
    profile host :
  let heard w' :=
    (listenerCalls (OnCreated listener) (added w w'),
     listenerCalls (OnProfileChanged listener) (added w w'),
     listenerCalls (OnDeleted listener) (added w w'),
     listenerCalls (OnHostChanged listener) (added w w')) in
  (sessions (manager w) !! id = None → tokens (manager w) !! token = None →
     heard (Create (token, None) id profile w).2 =
       ([Some (listener (Some (length (objects w))))], [], [], [])) ∧
  (sessions (manager w) !! id = Some session → session < length (objects w) →
     heard (Update id profile w).2 =
       ([], [Some (listener (Some session))], [],
        if losesHost w session profile then [Some (listener None)] else [])) ∧
  (sessions (manager w) !! id = Some session →
     heard (Delete id w).2 = ([], [], [Some (listener (Some session))], [])) ∧
  heard (SetHost host w) = ([], [], [], [Some (listener host)]).
Proof.
  intros heard. subst heard. cbv beta.
  split; [|split; [|split]].
  - intros Hid Htok. rewrite (Create_success _ _ _ _ Hid Htok).
    by rewrite !(added_app w _ [Emit "created" (Some (length (objects w)))])
      by done.
  - intros Hid Hlt.
    destruct (Update_valid _ _ profile _ Hid Hlt)
      as (w1 & -> & _ & _ & _ & _ & _ & _ & _ & He).
    cbn [snd]. rewrite !(added_app w _ _ He).
    by destruct (losesHost w session profile).
  - intros Hid. pose proof (Delete_effects _ _ _ Hid) as Hd.
    rewrite !(added_app w _ _ Hd). unfold teardown.
    by destruct (IsConnected (State (deref w session))),
                (IsWatching (State (deref w session))).
  - rewrite !(added_app w _ [Emit "host_changed" host]) by done.
    by destruct host.
Qed.

Lemma listeners_per_call_witness :
  let w := New sampleConfig in
  listenerCalls (OnCreated (fun s : Session => s))
    (added w (Create ("token-u1", None) "u1" hostProfile w).2) = [Some (Some 1)] ∧
  listenerCalls (OnHostChanged (fun s : Session => s))
    (added twoSessions (Update "u1" guestProfile twoSessions).2) = [Some None] ∧
  listenerCalls (OnDeleted (fun s : Session => s))
    (added liveSession (Delete "u1" liveSession).2) = [Some (Some 1)].
Proof.
  intros w.
  destruct (listeners_per_call (fun s : Session => s) w
              "token-u1" "u1" 0 hostProfile None) as (Hc & _).
  destruct (listeners_per_call (fun s : Session => s) twoSessions
              "token-u1" "u1" 1 guestProfile None) as (_ & Hu & _).
  destruct (listeners_per_call (fun s : Session => s) liveSession
              "token-u1" "u1" 1 guestProfile None) as (_ & _ & Hd & _).
  split; [|split].
  - exact (f_equal (fun t => t.1.1.1)
             (Hc ltac:(vm_compute; reflexivity) ltac:(vm_compute; reflexivity))).
  - exact (f_equal snd
             (Hu ltac:(vm_compute; reflexivity) ltac:(vm_compute; lia))).
  - exact (f_equal (fun t => t.1.2) (Hd ltac:(vm_compute; reflexivity))).
Defined.

End EventProofs.

(** ** The screenSet handler: proofs *)

Module HandlerProofs.

Import SessionManager RegistrySpec Events RegistryLaws RegistryProofs RegistryMore.
Import Handler.

Section ScreenSet.

Context {Desktop : Type}.
Variable SetScreenSize : ScreenSize → Desktop → option error * Desktop.
Variable SCREEN_UPDATED : string.
Variable encode : ScreenSize → Payload.

Implicit Types (h : MessageHandlerCtx Desktop) (session : loc).

(** X16: screenSet returns no error exactly when the requesting session is an
    admin and the desktop accepted the size.  A session that is not an admin
    gets the error "is not the admin" and the desktop is not called; an error
    of the desktop is returned as it is; and whenever screenSet returns an
    error, nothing is broadcast: the registry and its effects are
    unchanged. *)
Theorem screen_set_errors snapshot session payload h :
  let admin := IsAdmin (Profile (deref (sessions_ h) session)) in
  let r := screenSet SetScreenSize SCREEN_UPDATED encode
             snapshot session payload h in
  (r.1 = None ↔ admin = true ∧ (SetScreenSize payload (desktop h)).1 = None) ∧
  (admin = false → r = (Some (ErrorsNew "is not the admin"), h)) ∧
  (admin = true → r.1 ≠ None → r.1 = (SetScreenSize payload (desktop h)).1) ∧
  (r.1 ≠ None → sessions_ r.2 = sessions_ h).
Proof.
  intros admin r. subst admin r. unfold Handler.screenSet.
  destruct (IsAdmin _); simpl.
  - destruct (SetScreenSize payload (desktop h)) as [[err|] d]; simpl.
    + repeat split; try done. by intros [_ ?].
    + repeat split; done.
  - repeat split; try done. by intros [? _].
Qed.

(** X17: when the requesting session is an admin and the desktop accepted the
    size, screenSet returns no error, keeps the desktop as the call left it,
    and broadcasts the SCREEN_UPDATED event with the payload it was given to
    every registered session that is connected, the requesting one included:
    nobody is excluded.  The registry and the objects are unchanged. *)
Theorem screen_set_broadcasts snapshot session payload h d :
  IsAdmin (Profile (deref (sessions_ h) session)) = true →
  SetScreenSize payload (desktop h) = (None, d) →
  ListResult (sessions_ h) snapshot →
  let r := screenSet SetScreenSize SCREEN_UPDATED encode
             snapshot session payload h in
  r.1 = None ∧ desktop r.2 = d ∧
  manager (sessions_ r.2) = manager (sessions_ h) ∧
  objects (sessions_ r.2) = objects (sessions_ h) ∧
  ∀ e, e ∈ added (sessions_ h) (sessions_ r.2) ↔
       ∃ session', e = Send session' SCREEN_UPDATED (encode payload) ∧
         registered (sessions_ h) session' ∧
         IsConnected (State (deref (sessions_ h) session')) = true.
Proof.
  intros Hadmin Hset Hsnap r. subst r. unfold Handler.screenSet.
  rewrite Hadmin, Hset. simpl. rewrite Broadcast_spec, added_appendEffects.
  destruct (delivers_intro connected SCREEN_UPDATED (encode payload) None
              snapshot (sessions_ h) Hsnap)
    as (_ & _ & sent & _ & -> & _ & Hiff).
  do 4 (split; [done|]). intros e. split.
  - intros He. pose proof He as He'. unfold sends in He'.
    apply list_elem_of_fmap in He' as (session' & -> & _).
    apply Hiff in He as (? & ? & _). by exists session'.
  - intros (session' & -> & Hreg & Hc). by apply Hiff.
Qed.

End ScreenSet.

Lemma screen_set_errors_witness :
  let h := {| desktop := None; sessions_ := adminAndGuest |} in
  let size := {| Width := 0; Height := 0; Rate := 30 |} in
  screenSet simSetScreenSize "screen/updated" simEncode
    (List adminAndGuest) 2 size h =
    (Some (ErrorsNew "is not the admin"), h) ∧
  (screenSet simSetScreenSize "screen/updated" simEncode
     (List adminAndGuest) 1 size h).1 =
    Some (ErrExternal "invalid screen size").
Proof.
  intros h size.
  destruct (screen_set_errors simSetScreenSize "screen/updated" simEncode
              (List adminAndGuest) 2 size h) as (_ & H & _).
  destruct (screen_set_errors simSetScreenSize "screen/updated" simEncode
              (List adminAndGuest) 1 size h) as (_ & _ & H' & _).
  split; [by apply H|]. by apply H'.
Defined.

Lemma screen_set_broadcasts_witness :
  let h := {| desktop := None; sessions_ := adminAndGuest |} in
  let size := {| Width := 1280; Height := 720; Rate := 30 |} in
  let r := screenSet simSetScreenSize "screen/updated" simEncode
             (List adminAndGuest) 1 size h in
  r.1 = None ∧ desktop r.2 = Some size ∧
  Send 1 "screen/updated" "screen" ∈ added adminAndGuest (sessions_ r.2) ∧
  Send 2 "screen/updated" "screen" ∈ added adminAndGuest (sessions_ r.2).
Proof.
  intros h size r.
  destruct (screen_set_broadcasts simSetScreenSize "screen/updated" simEncode
              (List adminAndGuest) 1 size h (Some size))
    as (H1 & H2 & _ & _ & H3);
    [reflexivity|reflexivity|unfold ListResult; reflexivity|].
  split; [exact H1|]. split; [exact H2|].
  split; apply H3; eexists; (split; [reflexivity|]); (split; [|reflexivity]).
  - exists "admin". vm_compute. reflexivity.
  - exists "guest". vm_compute. reflexivity.
Defined.

End HandlerProofs.

(** ** Sequences of peer operations: proofs *)

Module PeerMore.

Import WebRTCPeer PeerSpec PeerRuns PeerProofs.

Section Runs.

Context {PC : Type} `{!PeerConnection PC}.

Implicit Types (st : PeerWorld PC) (c : PC).

Lemma kept_refl st : kept st st.
Proof. by repeat split. Qed.

Lemma kept_trans st1 st2 st3 : kept st1 st2 → kept st2 st3 → kept st1 st3.
Proof.
  intros (? & ? & ? & ? & ?) (? & ? & ? & ? & ?).
  repeat split; try congruence; lia.
Qed.

Lemma kept_setConnection st c c' :
  connection (peer st) = Some c → kept st (setConnection (Some c') st).
Proof. intros Hc. unfold kept, live. simpl. rewrite Hc. by repeat split. Qed.

Lemma setLocalDescription_returns description st r st' :
  is_Some (connection (peer st)) →
  setLocalDescription description st = Returns (r, st') →
  kept st st' ∧ peerEffects st' = peerEffects st ∧
  (is_Some r.2 → r.1 = None) ∧
  (r.2 = None → ∃ c', connection (peer st') = Some c' ∧
                      r.1 = pcLocalDescription c').
Proof.
  intros [c Hc]. unfold setLocalDescription. rewrite Hc.
  destruct (iceTrickle (peer st)); simpl.
  - destruct (pcSetLocalDescription description c) as [[err|] c1];
      intros [= <- <-]; simpl.
    + split; [by eapply kept_setConnection|]. split; [done|].
      split; [done|]. by intros ?.
    + split; [by eapply kept_setConnection|]. split; [done|].
      split; [by intros [? ?]|]. intros _. by exists c1.
  - destruct (pcSetLocalDescription description (GatheringCompletePromise c))
      as [[err|] c1].
    + intros [= <- <-]; simpl.
      split; [by eapply kept_setConnection|]. split; [done|].
      split; [done|]. by intros ?.
    + destruct (awaitGathering c1) as [c2|]; [|done].
      intros [= <- <-]; simpl.
      split; [by eapply kept_setConnection|]. split; [done|].
      split; [by intros [? ?]|]. intros _. by exists c2.
Qed.

Lemma setLocalDescription_no_panic description st :
  is_Some (connection (peer st)) →
  setLocalDescription description st ≠ Panics ∧
  (iceTrickle (peer st) = true → setLocalDescription description st ≠ Blocks).
Proof.
  intros [c Hc]. unfold setLocalDescription. rewrite Hc.
  destruct (iceTrickle (peer st)); simpl.
  - by destruct (pcSetLocalDescription description c) as [[err|] c1].
  - destruct (pcSetLocalDescription description (GatheringCompletePromise c))
      as [[err|] c1]; [done|].
    by destruct (awaitGathering c1).
Qed.

(** X18: what CreateOffer and CreateAnswer return.  When one of them
    returns, it returns an error with a nil description, or no error with the
    local description the connection reports at that moment; it has added no
    log line and no call of the video callback; and the error is
    ErrWebRTCConnectionNotFound exactly when the connection is nil. *)
Theorem negotiation_results ICERestart st r st' :
  CreateOffer ICERestart st = Returns (r, st') ∨
  CreateAnswer st = Returns (r, st') →
  (is_Some r.2 → r.1 = None) ∧
  (r.2 = None → ∃ c', connection (peer st') = Some c' ∧
                      r.1 = pcLocalDescription c') ∧
  (connection (peer st) = None → r.2 = Some ErrWebRTCConnectionNotFound) ∧
  peerEffects st' = peerEffects st.
Proof.
  unfold CreateOffer, CreateAnswer.
  destruct (connection (peer st)) as [c|] eqn:Hc.
  - intros [H|H].
    + destruct (pcCreateOffer ICERestart c) as [[offer [err|]] c1].
      * injection H as <- <-. simpl. repeat split; try done; by intros ?.
      * apply setLocalDescription_returns in H as (_ & He & H1 & H2);
          [|by eexists]. by repeat split.
    + destruct (pcCreateAnswer c) as [[answer [err|]] c1].
      * injection H as <- <-. simpl. repeat split; try done; by intros ?.
      * apply setLocalDescription_returns in H as (_ & He & H1 & H2);
          [|by eexists]. by repeat split.
  - intros [H|H]; injection H as <- <-; simpl; repeat split; try done;
      by intros ?.
Qed.

Lemma closes_setConnection o st : closes (setConnection o st) = closes st.
Proof. done. Qed.

Lemma execPeer_kept call st st' :
  execPeer call st = Returns st' → kept st st'.
Proof.
  destruct call as [ICERestart| |sdp|sdp|candidate|videoID|]; unfold execPeer.
  - unfold CreateOffer. destruct (connection (peer st)) as [c|] eqn:Hc;
      [|intros [= <-]; apply kept_refl].
    destruct (pcCreateOffer ICERestart c) as [[offer [err|]] c1].
    + intros [= <-]. by eapply kept_setConnection.
    + destruct (setLocalDescription offer (setConnection (Some c1) st))
        as [[r st1]| |] eqn:Hs; try done.
      intros [= <-]. apply setLocalDescription_returns in Hs as [Hk _];
        [|by eexists].
      eapply kept_trans; [by eapply kept_setConnection|done].
  - unfold CreateAnswer. destruct (connection (peer st)) as [c|] eqn:Hc;
      [|intros [= <-]; apply kept_refl].
    destruct (pcCreateAnswer c) as [[answer [err|]] c1].
    + intros [= <-]. by eapply kept_setConnection.
    + destruct (setLocalDescription answer (setConnection (Some c1) st))
        as [[r st1]| |] eqn:Hs; try done.
      intros [= <-]. apply setLocalDescription_returns in Hs as [Hk _];
        [|by eexists].
      eapply kept_trans; [by eapply kept_setConnection|done].
  - unfold SetOffer. destruct (connection (peer st)) as [c|] eqn:Hc;
      [|intros [= <-]; apply kept_refl].
    destruct (pcSetRemoteDescription _ c) as [err c1]. intros [= <-].
    by eapply kept_setConnection.
  - unfold SetAnswer. destruct (connection (peer st)) as [c|] eqn:Hc;
      [|intros [= <-]; apply kept_refl].
    destruct (pcSetRemoteDescription _ c) as [err c1]. intros [= <-].
    by eapply kept_setConnection.
  - unfold SetCandidate. destruct (connection (peer st)) as [c|] eqn:Hc;
      [|intros [= <-]; apply kept_refl].
    destruct (pcAddICECandidate candidate c) as [err c1]. intros [= <-].
    by eapply kept_setConnection.
  - unfold SetVideoID. destruct (connection (peer st)) as [c|] eqn:Hc;
      [|intros [= <-]; apply kept_refl].
    intros [= <-]. unfold kept, live. simpl. rewrite !closes_record.
    repeat case_decide; try done. repeat split; lia.
  - intros [= <-]. unfold kept.
    pose proof (Destroy_closes st) as Hcl.
    pose proof (Destroy_connection st) as Hnil.
    unfold live. rewrite Hnil, Hcl. unfold Destroy.
    destruct (connection (peer st)) as [c|]; [|by repeat split].
    destruct (pcClose c) as [err c1]. simpl. repeat split; lia.
Qed.

Lemma runPeer_kept calls st st' : runPeer calls st = Returns st' → kept st st'.
Proof.
  revert st. induction calls as [|call calls IH]; intros st; simpl.
  - intros [= <-]. apply kept_refl.
  - destruct (execPeer call st) as [st1| |] eqn:He; try done.
    intros Hr. eapply kept_trans; [by eapply execPeer_kept|by apply IH].
Qed.

(** X19: over any sequence of operations that returns, the gathering mode,
    the data channel and the video callback of the peer stay what they were;
    a nil connection never becomes live; and the number of times connections
    were closed plus one for a live connection stays the same, so that the
    connection is closed once if the sequence took it from live to nil and
    not at all otherwise. *)
Theorem peer_runs_close_once calls st st' :
  runPeer calls st = Returns st' →
  iceTrickle (peer st') = iceTrickle (peer st) ∧
  dataChannel (peer st') = dataChannel (peer st) ∧
  changeVideo (peer st') = changeVideo (peer st) ∧
  (connection (peer st) = None → connection (peer st') = None) ∧
  closes st' + live st' = closes st + live st ∧
  (closes st' ≤ S (closes st))%nat.
Proof.
  intros Hr. destruct (runPeer_kept _ _ _ Hr) as (? & ? & ? & Hl & Hc).
  do 3 (split; [done|]). unfold live in *. split.
  - intros Hnil. rewrite Hnil in Hl. by destruct (connection (peer st')); [lia|].
  - split; [done|]. destruct (connection (peer st)), (connection (peer st')); lia.
Qed.

Lemma execPeer_nil call st :
  connection (peer st) = None → execPeer call st = Returns st.
Proof.
  intros Hnil.
  destruct call; unfold execPeer, CreateOffer, CreateAnswer, SetOffer,
    SetAnswer, SetCandidate, SetVideoID, Destroy; by rewrite Hnil.
Qed.

Lemma runPeer_nil calls st :
  connection (peer st) = None → runPeer calls st = Returns st.
Proof.
  intros Hnil. induction calls as [|call calls IH]; [done|].
  simpl. by rewrite execPeer_nil.
Qed.

(** X20: a destroyed peer is inert: after a Destroy, every sequence of
    operations returns and leaves the peer and its effects exactly as the
    Destroy left them: no call to a connection, no log line, no call of the
    video callback, no second close. *)
Theorem destroyed_peer_is_inert calls st :
  runPeer (CallDestroy :: calls) st = Returns (Destroy st) ∧
  runPeer calls (Destroy st) = Returns (Destroy st).
Proof.
  assert (H : runPeer calls (Destroy st) = Returns (Destroy st))
    by apply runPeer_nil, Destroy_connection.
  split; [|done]. simpl. exact H.
Qed.

Lemma execPeer_progress call st :
  execPeer call st ≠ Panics ∧
  (iceTrickle (peer st) = true → execPeer call st ≠ Blocks).
Proof.
  destruct call as [ICERestart| |sdp|sdp|candidate|videoID|]; unfold execPeer;
    try done.
  - unfold CreateOffer. destruct (connection (peer st)) as [c|] eqn:Hc; [|done].
    destruct (pcCreateOffer ICERestart c) as [[offer [err|]] c1]; [done|].
    destruct (setLocalDescription_no_panic offer (setConnection (Some c1) st))
      as [Hp Hb]; [by eexists|].
    destruct (setLocalDescription offer (setConnection (Some c1) st))
      as [[r st1]| |]; try done.
    split; [done|]. intros Ht. by destruct (Hb Ht).
  - unfold CreateAnswer. destruct (connection (peer st)) as [c|] eqn:Hc; [|done].
    destruct (pcCreateAnswer c) as [[answer [err|]] c1]; [done|].
    destruct (setLocalDescription_no_panic answer (setConnection (Some c1) st))
      as [Hp Hb]; [by eexists|].
    destruct (setLocalDescription answer (setConnection (Some c1) st))
      as [[r st1]| |]; try done.
    split; [done|]. intros Ht. by destruct (Hb Ht).
Qed.

(** X21: no sequence of operations of the peer dereferences a nil
    connection; in trickle mode every sequence returns; and a sequence
    without CreateOffer and CreateAnswer returns in either mode: only the
    commit of a local description can wait. *)
Theorem peer_runs_progress calls st :
  runPeer calls st ≠ Panics ∧
  (iceTrickle (peer st) = true → ∃ st', runPeer calls st = Returns st') ∧
  ((∀ call, call ∈ calls →
      call ≠ CallCreateAnswer ∧ ∀ r, call ≠ CallCreateOffer r) →
   ∃ st', runPeer calls st = Returns st').
Proof.
  revert st. induction calls as [|call calls IH]; intros st; simpl.
  { split; [done|]. split; intros _; by eexists. }
  destruct (execPeer_progress call st) as [Hp Hb].
  destruct (execPeer call st) as [st1| |] eqn:He; [|clear IH|done].
  - destruct (IH st1) as (IH1 & IH2 & IH3). split; [done|]. split.
    + intros Ht. apply IH2. apply execPeer_kept in He as (-> & _). done.
    + intros Hc. apply IH3. intros call' Hin. apply Hc. by right.
  - split; [done|]. split; [intros Ht; by destruct (Hb Ht)|].
    intros Hc. destruct (Hc call) as [Ha Ho]; [by left|]. exfalso.
    destruct call as [ICERestart| |sdp|sdp|candidate|videoID|];
      try done. by apply (Ho ICERestart).
Qed.

(** X22: the video callback is called by SetVideoID on a live connection
    and by nothing else: such a call logs the change, calls the callback once
    with the id it was given, returns what the callback returns and leaves
    the peer as it is; every other operation that returns, and SetVideoID on
    a nil connection, leaves the list of callback calls as it was. *)
Theorem video_callback_calls call st st' :
  execPeer call st = Returns st' →
  videoChanges st' =
    videoChanges st ++
    match call with
    | CallSetVideoID videoID =>
      match connection (peer st) with Some _ => [videoID] | None => [] end
    | _ => []
    end ∧
  ∀ videoID, call = CallSetVideoID videoID → is_Some (connection (peer st)) →
    (SetVideoID videoID st).1 = changeVideo (peer st) videoID ∧
    peer st' = peer st ∧
    peerEffects st' =
      peerEffects st ++ [LogInfo videoID "change video id"; ChangeVideo videoID].
Proof.
  intros He.
  assert (Hsame : ∀ st1, peerEffects st1 = peerEffects st →
                         videoChanges st1 = videoChanges st ++ []).
  { intros st1 Hp. unfold videoChanges. by rewrite Hp, app_nil_r. }
  destruct call as [ICERestart| |sdp|sdp|candidate|videoID|]; unfold execPeer in He.
  - split; [|done]. apply Hsame.
    destruct (CreateOffer ICERestart st) as [[r st1]| |] eqn:Hr; try done.
    injection He as <-.
    unfold CreateOffer in Hr. destruct (connection (peer st)) as [c|] eqn:Hc;
      [|by injection Hr as _ <-].
    destruct (pcCreateOffer ICERestart c) as [[offer [err|]] c1];
      [by injection Hr as _ <-|].
    by apply setLocalDescription_returns in Hr as (_ & -> & _); [|by eexists].
  - split; [|done]. apply Hsame.
    destruct (CreateAnswer st) as [[r st1]| |] eqn:Hr; try done.
    injection He as <-.
    unfold CreateAnswer in Hr. destruct (connection (peer st)) as [c|] eqn:Hc;
      [|by injection Hr as _ <-].
    destruct (pcCreateAnswer c) as [[answer [err|]] c1];
      [by injection Hr as _ <-|].
    by apply setLocalDescription_returns in Hr as (_ & -> & _); [|by eexists].
  - split; [|done]. apply Hsame. injection He as <-. unfold SetOffer.
    destruct (connection (peer st)) as [c|]; [|done].
    by destruct (pcSetRemoteDescription _ c).
  - split; [|done]. apply Hsame. injection He as <-. unfold SetAnswer.
    destruct (connection (peer st)) as [c|]; [|done].
    by destruct (pcSetRemoteDescription _ c).
  - split; [|done]. apply Hsame. injection He as <-. unfold SetCandidate.
    destruct (connection (peer st)) as [c|]; [|done].
    by destruct (pcAddICECandidate candidate c).
  - injection He as <-. unfold SetVideoID.
    destruct (connection (peer st)) as [c|] eqn:Hc.
    + split.
      * unfold videoChanges. simpl. by rewrite <- app_assoc, omap_app.
      * intros v [= <-] _. simpl. by rewrite <- app_assoc.
    + split; [by rewrite app_nil_r|]. by intros v _ [? ?].
  - split; [|done]. injection He as <-. unfold Destroy.
    destruct (connection (peer st)) as [c|]; [|by rewrite app_nil_r].
    destruct (pcClose c) as [err c1]. unfold videoChanges. simpl.
    by rewrite <- app_assoc, omap_app.
Qed.

End Runs.

Lemma video_callback_calls_witness :
  let st := simPeer (Some (simFresh true)) true in
  videoChanges (SetVideoID "hd" st).2 = ["hd"] ∧
  videoChanges (Destroy (SetVideoID "hd" st).2) = ["hd"].
Proof.
  intros st.
  destruct (video_callback_calls (CallSetVideoID "hd") st (SetVideoID "hd" st).2
              eq_refl) as [H1 _].
  destruct (video_callback_calls CallDestroy (SetVideoID "hd" st).2
              (Destroy (SetVideoID "hd" st).2) eq_refl) as [H2 _].
  split; [exact H1|]. rewrite H2, H1. reflexivity.
Defined.

Lemma negotiation_results_witness :
  let st := simPeer (Some (simFresh true)) true in
  ∃ d st', CreateOffer false st = Returns ((Some d, None), st') ∧
           peerEffects st' = peerEffects st.
Proof.
  intros st. eexists _, _. split; [reflexivity|].
  edestruct (negotiation_results false st) as (_ & _ & _ & H);
    [left; reflexivity|].
  exact H.
Defined.

Lemma peer_runs_close_once_witness :
  let st := simPeer (Some (simFresh true)) true in
  let calls := [CallCreateOffer false; CallSetVideoID "hd"; CallDestroy;
                CallSetCandidate {| Candidate := "c"; SDPMid := None;
                                    SDPMLineIndex := None |};
                CallDestroy] in
  ∃ st', runPeer calls st = Returns st' ∧ closes st' = 1 ∧
         iceTrickle (peer st') = true.
Proof.
  intros st calls. eexists. split; [reflexivity|].
  edestruct (peer_runs_close_once calls st) as (Ht & _ & _ & _ & Hc & _);
    [reflexivity|].
  split; [exact Hc|exact Ht].
Defined.

Lemma peer_runs_progress_witness :
  let st := simPeer (Some (simFresh false)) true in
  ∃ st', runPeer [CallCreateOffer true; CallCreateAnswer; CallDestroy] st =
         Returns st'.
Proof.
  intros st.
  destruct (peer_runs_progress [CallCreateOffer true; CallCreateAnswer; CallDestroy] st)
    as (_ & H & _).
  by apply H.
Defined.

End PeerMore.
